(** * satvis: scene-object lifecycle, batched primitive and periodic callbacks

    A shallow embedding of
      - src/unnamed/part_003 (CesiumCallbackHelper.js):
          createPeriodicTickCallback, createPeriodicTimeCallback;
      - src/src/modules/util/CesiumComponentCollection.js:
          show, hide, enableComponent, disableComponent,
          recreateGeometryInstancePrimitive, visibleComponents,
          isSelected, isTracked, track, setTrackedOnTickCallback,
          createCesiumEntity;
      - src/unnamed/part_002 (GroundStationEntity.js): the constructor
          and passes;
      - src/unnamed/part_001 (sat.js): the url parameters of the
          satellite store;
      - src/src/modules/util/pinia-plugin-url-sync.ts:
          resolve, urlToState, stateToUrl;
      - src/src/modules/util/PushManager.js:
          available, active, clearTimers, notifyAtDate;
      - src/unnamed/part_004 (CesiumTimelineHelper.js):
          clearHighlightRanges, addHighlightRanges, updateHighlightRanges;
      - src/src/modules/CesiumController.js
          (CesiumSampledPositionRawValueAccess.js): getRawValues, length.

    The program is single-threaded and event-driven.  Every arrow function
    the source registers on a Cesium event is represented by a constructor
    carrying the variables the closure captured ([ticks], [lastUpdated],
    [lastState], the removal handles); the mutable objects the closures share
    (the viewer, the static fields of the collection class) live in one
    explicit [World] record that every operation threads through.  Calls the
    source makes to client callbacks are recorded in a log kept in the
    world, so that "is invoked", "exactly once" and "never afterwards" become
    statements about that log. *)

From Stdlib Require Import List ZArith Bool String Ascii Lia Arith PeanoNat.
From Stdlib Require Import Sorting.Sorted Sorting.Permutation.
Import ListNotations.

Set Implicit Arguments.

(** ** Cesium.JulianDate *)

Module JulianDate.

(** A simulated instant: a whole day number and the seconds into that day.
    Seconds are kept at integer resolution. *)
Record t : Type := make { dayNumber : Z; secondsOfDay : Z }.

Definition SECONDS_PER_DAY : Z := 86400.

(** [JulianDate.secondsDifference(left, right)]. *)
Definition secondsDifference (left right : t) : Z :=
  ((dayNumber left - dayNumber right) * SECONDS_PER_DAY
   + (secondsOfDay left - secondsOfDay right))%Z.

End JulianDate.

(** ** Cesium.Event

    The listeners of an event, oldest first.  [addEventListener] returns a
    removal function; here it is the handle (a number unique to the
    registration) and calling the removal function is [removeEventListener]
    at that handle.  Removing twice is harmless, as the second call finds
    no entry. *)

Module Event.

Section Listeners.

Variable L : Type.

Definition t : Type := list (nat * L).

Fixpoint lookup (h : nat) (ev : t) : option L :=
  match ev with
  | [] => None
  | (h', l) :: rest => if Nat.eqb h' h then Some l else lookup h rest
  end.

Definition addEventListener (h : nat) (l : L) (ev : t) : t := ev ++ [(h, l)].

Definition removeEventListener (h : nat) (ev : t) : t :=
  filter (fun e => negb (Nat.eqb (fst e) h)) ev.

(** Assignment to a variable captured by the listener registered under [h]. *)
Definition update (h : nat) (l : L) (ev : t) : t :=
  map (fun e => if Nat.eqb (fst e) h then (h, l) else e) ev.

Definition handles (ev : t) : list nat := map fst ev.

(** How many registered listeners satisfy [f]. *)
Definition count (f : L -> bool) (ev : t) : nat :=
  List.length (filter (fun e => f (snd e)) ev).

End Listeners.

End Event.

(** ** Objects of the scene *)

(** What a collection stores under a component name.  The source tells the
    kinds apart with [instanceof]; the number is the object's identity
    ([===] on objects). *)
Inductive Component : Type :=
| Entity (id : nat)
| Primitive (id : nat)
| GeometryInstance (id : nat)
| OtherObject (id : nat).

Definition Component_eqb (a b : Component) : bool :=
  match a, b with
  | Entity x, Entity y => Nat.eqb x y
  | Primitive x, Primitive y => Nat.eqb x y
  | GeometryInstance x, GeometryInstance y => Nat.eqb x y
  | OtherObject x, OtherObject y => Nat.eqb x y
  | _, _ => false
  end.

Definition isGeometryInstance (c : Component) : bool :=
  match c with
  | GeometryInstance _ => true
  | _ => false
  end.

(** The closures handed to the scheduler as [callback]. *)
Inductive Callback : Type :=
| RecreateCallback
    (* the arrow function of recreateGeometryInstancePrimitive, l.117-162 *)
| UserCallback (k : nat).
    (* a callback of client code; [k] names it in the log *)

(** The arrow functions registered on [viewer.clock.onTick], each with its
    captured variables. *)
Inductive TickListener : Type :=
| PeriodicTick (refreshRate : nat) (ticks : nat) (callback : Callback)
    (* createPeriodicTickCallback, part_003 l.23-30 *)
| PeriodicTime (refreshRate : Z) (lastUpdated : JulianDate.t) (callback : Callback)
    (* createPeriodicTimeCallback, part_003 l.43-51 *)
| ReadyListener (primitive : nat) (lastState : Z)
    (* readyCallback, CesiumComponentCollection.js l.135-160 *)
| OnTickListener (k : nat).
    (* (clock) => onTickCallback(clock), l.224-226 *)

(** The arrow function registered on [viewer.trackedEntityChanged]
    (l.227-231); it captured the removal function of its per-tick partner. *)
Inductive ChangeListener : Type :=
| UntrackListener (onTickEventRemovalCallback : nat) (k : nat).

(** Calls that leave the modelled program. *)
Inductive LogEvent : Type :=
| Invoked (h : nat) (callback : Callback) (time : JulianDate.t)
    (* [callback(time)] made by the periodic listener registered under [h] *)
| OnTickCalled (h : nat) (k : nat)
| OnUntrackCalled (h : nat) (k : nat)
| RequestRender.

Section Viewer.

(** The host: Cesium's frame-transform provider and the primitive's own
    [update] method are external to the repository. *)
Variable Matrix3 : Type.
Variable computeIcrfToFixedMatrix : JulianDate.t -> option Matrix3.

(** [Matrix4.fromRotationTranslation(rotation)] with the default (zero)
    translation, kept symbolic. *)
Inductive Matrix4 : Type :=
| IDENTITY
| fromRotationTranslation (rotation : Matrix3).

(** The fields of a [Cesium.Primitive] the source reads or writes. *)
Record CesiumPrimitive : Type := mkPrimitive {
  ready : bool;
  _state : Z;
  modelMatrix : Matrix4
}.

Variable Primitive_update : CesiumPrimitive -> CesiumPrimitive.

(** The viewer, the static fields of the collection class, the primitives
    allocated by rebuilds, and the log.  All collections are instances of
    one class, so they share one set of statics.  Objects made by client
    code (the components) and objects allocated by rebuilds are named by
    numbers; the former are chosen by the client, the latter are taken from
    [nextId]. *)
Record World : Type := mkWorld {
  clock_currentTime : JulianDate.t;
  clock_onTick : Event.t TickListener;
  trackedEntityChanged : Event.t ChangeListener;
  entities : list nat;                  (* viewer.entities *)
  scene_primitives : list nat;          (* viewer.scene.primitives *)
  geometries : list Component;          (* static geometries *)
  primitive : option nat;               (* static primitive *)
  primitivePendingUpdate : bool;
  primitivePendingCreation : bool;
  heap : list (nat * CesiumPrimitive);  (* the objects made by [new Cesium.Primitive] *)
  nextId : nat;                         (* next unused handle or object identity *)
  log : list LogEvent                   (* oldest first *)
}.

Definition set_currentTime (t : JulianDate.t) (w : World) : World :=
  mkWorld t (clock_onTick w) (trackedEntityChanged w) (entities w)
    (scene_primitives w) (geometries w) (primitive w)
    (primitivePendingUpdate w) (primitivePendingCreation w) (heap w)
    (nextId w) (log w).

Definition set_onTick (ev : Event.t TickListener) (w : World) : World :=
  mkWorld (clock_currentTime w) ev (trackedEntityChanged w) (entities w)
    (scene_primitives w) (geometries w) (primitive w)
    (primitivePendingUpdate w) (primitivePendingCreation w) (heap w)
    (nextId w) (log w).

Definition set_trackedEntityChanged (ev : Event.t ChangeListener) (w : World) : World :=
  mkWorld (clock_currentTime w) (clock_onTick w) ev (entities w)
    (scene_primitives w) (geometries w) (primitive w)
    (primitivePendingUpdate w) (primitivePendingCreation w) (heap w)
    (nextId w) (log w).

Definition set_entities (l : list nat) (w : World) : World :=
  mkWorld (clock_currentTime w) (clock_onTick w) (trackedEntityChanged w) l
    (scene_primitives w) (geometries w) (primitive w)
    (primitivePendingUpdate w) (primitivePendingCreation w) (heap w)
    (nextId w) (log w).

Definition set_scene_primitives (l : list nat) (w : World) : World :=
  mkWorld (clock_currentTime w) (clock_onTick w) (trackedEntityChanged w)
    (entities w) l (geometries w) (primitive w)
    (primitivePendingUpdate w) (primitivePendingCreation w) (heap w)
    (nextId w) (log w).

Definition set_geometries (l : list Component) (w : World) : World :=
  mkWorld (clock_currentTime w) (clock_onTick w) (trackedEntityChanged w)
    (entities w) (scene_primitives w) l (primitive w)
    (primitivePendingUpdate w) (primitivePendingCreation w) (heap w)
    (nextId w) (log w).

Definition set_primitive (p : option nat) (w : World) : World :=
  mkWorld (clock_currentTime w) (clock_onTick w) (trackedEntityChanged w)
    (entities w) (scene_primitives w) (geometries w) p
    (primitivePendingUpdate w) (primitivePendingCreation w) (heap w)
    (nextId w) (log w).

Definition set_primitivePendingUpdate (b : bool) (w : World) : World :=
  mkWorld (clock_currentTime w) (clock_onTick w) (trackedEntityChanged w)
    (entities w) (scene_primitives w) (geometries w) (primitive w)
    b (primitivePendingCreation w) (heap w) (nextId w) (log w).

Definition set_primitivePendingCreation (b : bool) (w : World) : World :=
  mkWorld (clock_currentTime w) (clock_onTick w) (trackedEntityChanged w)
    (entities w) (scene_primitives w) (geometries w) (primitive w)
    (primitivePendingUpdate w) b (heap w) (nextId w) (log w).

Definition set_heap (hp : list (nat * CesiumPrimitive)) (w : World) : World :=
  mkWorld (clock_currentTime w) (clock_onTick w) (trackedEntityChanged w)
    (entities w) (scene_primitives w) (geometries w) (primitive w)
    (primitivePendingUpdate w) (primitivePendingCreation w) hp
    (nextId w) (log w).

Definition set_nextId (n : nat) (w : World) : World :=
  mkWorld (clock_currentTime w) (clock_onTick w) (trackedEntityChanged w)
    (entities w) (scene_primitives w) (geometries w) (primitive w)
    (primitivePendingUpdate w) (primitivePendingCreation w) (heap w)
    n (log w).

Definition add_log (e : LogEvent) (w : World) : World :=
  mkWorld (clock_currentTime w) (clock_onTick w) (trackedEntityChanged w)
    (entities w) (scene_primitives w) (geometries w) (primitive w)
    (primitivePendingUpdate w) (primitivePendingCreation w) (heap w)
    (nextId w) (log w ++ [e]).


(** *** The scene's collections

    [viewer.entities] and [viewer.scene.primitives] are Cesium's; the source
    only calls [contains], [add] and [remove] on them. *)

Definition contains (x : nat) (l : list nat) : bool := existsb (Nat.eqb x) l.

Definition remove (x : nat) (l : list nat) : list nat :=
  filter (fun y => negb (Nat.eqb y x)) l.

(** The object behind a primitive's identity, and assignment to its fields. *)
Definition deref (p : nat) (w : World) : option CesiumPrimitive :=
  Event.lookup p (heap w).

Definition store (p : nat) (obj : CesiumPrimitive) (w : World) : World :=
  set_heap (Event.update p obj (heap w)) w.

Definition removeTickListener (h : nat) (w : World) : World :=
  set_onTick (Event.removeEventListener h (clock_onTick w)) w.

Definition updateTickListener (h : nat) (l : TickListener) (w : World) : World :=
  set_onTick (Event.update h l (clock_onTick w)) w.

(** [viewer.clock.onTick.addEventListener(l)]: the new registration gets the
    next unused handle, which stands for the removal function returned. *)
Definition addTickListener (l : TickListener) (w : World) : nat * World :=
  let h := nextId w in
  (h, set_nextId (S h) (set_onTick (Event.addEventListener h l (clock_onTick w)) w)).

(** ** CesiumCallbackHelper (src/unnamed/part_003) *)

(** [createPeriodicTickCallback(viewer, refreshRate, callback)], with the
    default [event = viewer.clock.onTick]: [let ticks = 0] and the listener
    is registered; the removal function is returned. *)
Definition createPeriodicTickCallback (refreshRate : nat) (callback : Callback)
    (w : World) : nat * World :=
  addTickListener (PeriodicTick refreshRate 0 callback) w.

(** [createPeriodicTimeCallback(viewer, refreshRate, callback)]:
    [let lastUpdated = viewer.clock.currentTime]. *)
Definition createPeriodicTimeCallback (refreshRate : Z) (callback : Callback)
    (w : World) : nat * World :=
  addTickListener (PeriodicTime refreshRate (clock_currentTime w) callback) w.

(** ** CesiumComponentCollection: the batched primitive *)

(** The callback of recreateGeometryInstancePrimitive (l.117-162).
    [removeCallback] is the removal function of the periodic listener that
    runs it. *)
Definition recreateCallback (removeCallback : nat) (w : World) : World :=
  if primitivePendingCreation w then w
  else
    let w := set_primitivePendingUpdate false w in
    match geometries w with
    | [] =>
        let w := match primitive w with
                 | Some old => set_scene_primitives (remove old (scene_primitives w)) w
                 | None => w
                 end in
        let w := set_primitive None w in
        add_log RequestRender w
    | _ :: _ =>
        let w := set_primitivePendingCreation true w in
        (* new Cesium.Primitive({ geometryInstances, appearance }) *)
        let p := nextId w in
        let w := set_nextId (S p)
                   (set_heap (heap w ++ [(p, mkPrimitive false 0 IDENTITY)]) w) in
        let w := snd (addTickListener (ReadyListener p (-1)) w) in
        removeTickListener removeCallback w
    end.

(** The listener registered at l.135; [readyCallback] is its own removal
    function, [p] the candidate and [lastState] the captured variable. *)
Definition readyListener (readyCallback p : nat) (lastState : Z) (w : World) : World :=
  match deref p w with
  | None => w
  | Some obj =>
      if negb (ready obj) then
        let state := _state obj in
        if negb (state =? lastState)%Z then
          let w := updateTickListener readyCallback (ReadyListener p state) w in
          store p (Primitive_update obj) w
        else w
      else
        let w := match computeIcrfToFixedMatrix (clock_currentTime w) with
                 | Some icrfToFixed =>
                     store p (mkPrimitive (ready obj) (_state obj)
                                (fromRotationTranslation icrfToFixed)) w
                 | None => w
                 end in
        let w := match primitive w with
                 | Some old => set_scene_primitives (remove old (scene_primitives w)) w
                 | None => w
                 end in
        let w := set_scene_primitives (scene_primitives w ++ [p]) w in
        let w := set_primitive (Some p) w in
        let w := add_log RequestRender w in
        let w := set_primitivePendingCreation false w in
        removeTickListener readyCallback w
  end.

(** [callback(time)] as made by the periodic listener registered under [h]. *)
Definition invoke (h : nat) (callback : Callback) (time : JulianDate.t)
    (w : World) : World :=
  let w := add_log (Invoked h callback time) w in
  match callback with
  | RecreateCallback => recreateCallback h w
  | UserCallback _ => w
  end.

(** One run of the listener registered under [h] on [viewer.clock.onTick]. *)
Definition runTickListener (h : nat) (l : TickListener) (w : World) : World :=
  match l with
  | PeriodicTick refreshRate ticks callback =>
      if ticks <? refreshRate then
        updateTickListener h (PeriodicTick refreshRate (ticks + 1) callback) w
      else
        let w := invoke h callback (clock_currentTime w) w in
        updateTickListener h (PeriodicTick refreshRate 0 callback) w
  | PeriodicTime refreshRate lastUpdated callback =>
      let time := clock_currentTime w in
      let delta := Z.abs (JulianDate.secondsDifference time lastUpdated) in
      if (delta <? refreshRate)%Z then w
      else
        let w := invoke h callback time w in
        updateTickListener h (PeriodicTime refreshRate time callback) w
  | ReadyListener p lastState => readyListener h p lastState w
  | OnTickListener k => add_log (OnTickCalled h k) w
  end.

(** One run of the listener registered under [h] on
    [viewer.trackedEntityChanged] (l.227-231). *)
Definition runChangeListener (h : nat) (l : ChangeListener) (w : World) : World :=
  match l with
  | UntrackListener onTickEventRemovalCallback k =>
      let w := removeTickListener onTickEventRemovalCallback w in
      let w := set_trackedEntityChanged
                 (Event.removeEventListener h (trackedEntityChanged w)) w in
      add_log (OnUntrackCalled h k) w
  end.

(** [event.raiseEvent()]: the listeners registered when the event is raised
    are run oldest first; one that was removed earlier in the same pass is
    skipped, and one added during the pass waits for the next. *)
Definition raiseOnTick (w : World) : World :=
  fold_left
    (fun w h => match Event.lookup h (clock_onTick w) with
                | Some l => runTickListener h l w
                | None => w
                end)
    (Event.handles (clock_onTick w)) w.

Definition raiseTrackedEntityChanged (w : World) : World :=
  fold_left
    (fun w h => match Event.lookup h (trackedEntityChanged w) with
                | Some l => runChangeListener h l w
                | None => w
                end)
    (Event.handles (trackedEntityChanged w)) w.

(** A frame: the clock moves to [time] and raises [onTick]. *)
Definition tick (time : JulianDate.t) (w : World) : World :=
  raiseOnTick (set_currentTime time w).

(** recreateGeometryInstancePrimitive (l.112-163). *)
Definition recreateGeometryInstancePrimitive (w : World) : World :=
  if primitivePendingUpdate w then w
  else
    let w := set_primitivePendingUpdate true w in
    snd (createPeriodicTickCallback 30 RecreateCallback w).

(** setTrackedOnTickCallback (l.223-232); the two removal functions stay
    inside the closure, the pair returned here only names the registration. *)
Definition setTrackedOnTickCallback (onTickCallback onUntrackCallback : nat)
    (w : World) : (nat * nat) * World :=
  let onTickEventRemovalCallback := nextId w in
  let w := snd (addTickListener (OnTickListener onTickCallback) w) in
  let h := nextId w in
  ((onTickEventRemovalCallback, h),
   set_nextId (S h)
     (set_trackedEntityChanged
        (Event.addEventListener h
           (UntrackListener onTickEventRemovalCallback onUntrackCallback)
           (trackedEntityChanged w)) w)).

(** ** CesiumComponentCollection: the per-object store *)

(** [#components] is a JavaScript object used as a map from component name
    to component; [Object.keys] lists the names in insertion order. *)
Record CesiumComponentCollection : Type := mkCollection {
  components : list (string * Component);
  lazy : bool;
  defaultEntity : option Component
}.

Fixpoint get (name : string) (m : list (string * Component)) : option Component :=
  match m with
  | [] => None
  | (n, c) :: rest => if String.eqb n name then Some c else get name rest
  end.

(** [delete this.components[name]]. *)
Definition delete (name : string) (m : list (string * Component))
    : list (string * Component) :=
  filter (fun e => negb (String.eqb (fst e) name)) m.

(** [this.components[name] = component]: an existing name keeps its place. *)
Fixpoint put (name : string) (c : Component) (m : list (string * Component))
    : list (string * Component) :=
  match m with
  | [] => [(name, c)]
  | (n, c') :: rest =>
      if String.eqb n name then (n, c) :: rest else (n, c') :: put name c rest
  end.

Definition componentNames (c : CesiumComponentCollection) : list string :=
  map fst (components c).


(** The effect of enableComponent on the viewer and the statics (l.81-88). *)
Definition enableInWorld (component : Component) (w : World) : World :=
  match component with
  | Entity e =>
      if negb (contains e (entities w))
      then set_entities (entities w ++ [e]) w else w
  | Primitive p =>
      if negb (contains p (scene_primitives w))
      then set_scene_primitives (scene_primitives w ++ [p]) w else w
  | GeometryInstance _ =>
      recreateGeometryInstancePrimitive
        (set_geometries (geometries w ++ [component]) w)
  | OtherObject _ => w
  end.

(** enableComponent (l.76-92). *)
Definition enableComponent (name : string)
    (cw : CesiumComponentCollection * World) : CesiumComponentCollection * World :=
  let (c, w) := cw in
  match get name (components c) with
  | None => (c, w)
  | Some component =>
      let w := enableInWorld component w in
      match defaultEntity c with
      | None => (mkCollection (components c) (lazy c) (Some component), w)
      | Some _ => (c, w)
      end
  end.

(** The effect of disableComponent on the viewer and the statics (l.99-106). *)
Definition disableInWorld (component : Component) (w : World) : World :=
  match component with
  | Entity e => set_entities (remove e (entities w)) w
  | Primitive p => set_scene_primitives (remove p (scene_primitives w)) w
  | GeometryInstance _ =>
      recreateGeometryInstancePrimitive
        (set_geometries
           (filter (fun geometry => negb (Component_eqb geometry component))
              (geometries w)) w)
  | OtherObject _ => w
  end.

(** disableComponent (l.94-110). *)
Definition disableComponent (name : string)
    (cw : CesiumComponentCollection * World) : CesiumComponentCollection * World :=
  let (c, w) := cw in
  match get name (components c) with
  | None => (c, w)
  | Some component =>
      let w := disableInWorld component w in
      if lazy c
      then (mkCollection (delete name (components c)) (lazy c) (defaultEntity c), w)
      else (c, w)
  end.

(** show (l.64-68) and hide (l.70-74) with explicit names. *)
Definition show (names : list string)
    (cw : CesiumComponentCollection * World) : CesiumComponentCollection * World :=
  fold_left (fun cw componentName => enableComponent componentName cw) names cw.

Definition hide (names : list string)
    (cw : CesiumComponentCollection * World) : CesiumComponentCollection * World :=
  fold_left (fun cw componentName => disableComponent componentName cw) names cw.

(** [show()] and [hide()]: the default argument [this.componentNames] is
    evaluated once, when the call is made. *)
Definition showAll (cw : CesiumComponentCollection * World) :=
  show (componentNames (fst cw)) cw.

Definition hideAll (cw : CesiumComponentCollection * World) :=
  hide (componentNames (fst cw)) cw.

(** The visibleComponents getter (l.169-179). *)
Definition visibleComponents (c : CesiumComponentCollection) (w : World)
    : list Component :=
  filter
    (fun component =>
       match component with
       | Entity e => contains e (entities w)
       | Primitive p => contains p (scene_primitives w)
       | _ => false
       end)
    (map snd (components c)).

(** createCesiumEntity (l.250-264), as far as the store is concerned: the
    new entity, whose identity is [id], is kept under [componentName]. *)
Definition createCesiumEntity (componentName : string) (id : nat)
    (c : CesiumComponentCollection) : CesiumComponentCollection :=
  mkCollection (put componentName (Entity id) (components c)) (lazy c)
    (defaultEntity c).

(** ** Runs of the program

    What can happen between two states: a frame, a change of the tracked
    entity, a component being enabled or disabled by some collection,
    Cesium advancing a primitive under construction between frames, and
    client code registering or cancelling its own callbacks. *)
Inductive Input : Type :=
| Tick (time : JulianDate.t)
| TrackedEntityChanged
| Enable (component : Component)
| Disable (component : Component)
| HostProgress (p : nat) (state : Z) (isReady : bool)
| SetTrackedOnTickCallback (onTickCallback onUntrackCallback : nat)
| CreatePeriodicTickCallback (refreshRate : nat) (k : nat)
| CreatePeriodicTimeCallback (refreshRate : Z) (k : nat)
| Cancel (h : nat).

(** Client code only holds the removal functions it was given: those of its
    own periodic callbacks. *)
Definition cancel (h : nat) (w : World) : World :=
  match Event.lookup h (clock_onTick w) with
  | Some (PeriodicTick _ _ (UserCallback _))
  | Some (PeriodicTime _ _ (UserCallback _)) => removeTickListener h w
  | _ => w
  end.

Definition hostProgress (p : nat) (state : Z) (isReady : bool) (w : World) : World :=
  match deref p w with
  | Some obj => store p (mkPrimitive isReady state (modelMatrix obj)) w
  | None => w
  end.

Definition step (i : Input) (w : World) : World :=
  match i with
  | Tick time => tick time w
  | TrackedEntityChanged => raiseTrackedEntityChanged w
  | Enable component => enableInWorld component w
  | Disable component => disableInWorld component w
  | HostProgress p state isReady => hostProgress p state isReady w
  | SetTrackedOnTickCallback a b => snd (setTrackedOnTickCallback a b w)
  | CreatePeriodicTickCallback n k =>
      snd (createPeriodicTickCallback n (UserCallback k) w)
  | CreatePeriodicTimeCallback s k =>
      snd (createPeriodicTimeCallback s (UserCallback k) w)
  | Cancel h => cancel h w
  end.

Definition run (inputs : list Input) (w : World) : World :=
  fold_left (fun w i => step i w) inputs w.

(** The page as loaded: nothing registered, nothing shown, the statics as
    the class declares them (l.38-44). *)
Definition initialWorld (time : JulianDate.t) : World :=
  mkWorld time [] [] [] [] [] None false false [] 0 [].

(** [n] frames, all at the time [time]. *)
Definition ticks (n : nat) (time : JulianDate.t) : list Input :=
  repeat (Tick time) n.

(** *** Observations used in the statements *)

(** The handle of the registration on whose behalf a call was made. *)
Definition tag (e : LogEvent) : option nat :=
  match e with
  | Invoked h _ _ => Some h
  | OnTickCalled h _ => Some h
  | OnUntrackCalled h _ => Some h
  | RequestRender => None
  end.

Definition madeBy (h : nat) (e : LogEvent) : bool :=
  match tag e with
  | Some h' => Nat.eqb h' h
  | None => false
  end.

(** The client calls made so far on behalf of registration [h]. *)
Definition calls (h : nat) (w : World) : list LogEvent :=
  filter (madeBy h) (log w).

Definition isDebounce (l : TickListener) : bool :=
  match l with
  | PeriodicTick _ _ RecreateCallback => true
  | _ => false
  end.

Definition isReadyListener (l : TickListener) : bool :=
  match l with
  | ReadyListener _ _ => true
  | _ => false
  end.

(** Debounce timers armed and not yet removed. *)
Definition queuedRebuilds (w : World) : nat :=
  Event.count isDebounce (clock_onTick w).

(** Candidates under construction: one polling listener each. *)
Definition rebuildsInFlight (w : World) : nat :=
  Event.count isReadyListener (clock_onTick w).

(** Every rebuild allocates one primitive. *)
Definition rebuildsStarted (w : World) : nat := List.length (heap w).

End Viewer.

(** ** Concrete hosts and objects used in the examples *)

Definition epoch : JulianDate.t := JulianDate.make 2460000 0.

Definition secondsAfterEpoch (s : Z) : JulianDate.t := JulianDate.make 2460000 s.

(** A host whose primitives step their internal state on every [update]. *)
Definition stepping (obj : CesiumPrimitive Z) : CesiumPrimitive Z :=
  mkPrimitive (ready obj) (_state obj + 1)%Z (modelMatrix obj).

(** A frame-transform provider that knows the rotation at every instant
    (the matrix is stood for by the seconds of the day it was computed at). *)
Definition alwaysDefined (time : JulianDate.t) : option Z :=
  Some (JulianDate.secondsOfDay time).

(** A provider whose data is not loaded before second 100 of the day. *)
Definition definedFrom100 (time : JulianDate.t) : option Z :=
  if (JulianDate.secondsOfDay time <? 100)%Z then None
  else Some (JulianDate.secondsOfDay time).

Definition orbitA : Component := GeometryInstance 101.
Definition orbitB : Component := GeometryInstance 102.

(** A lazy collection holding a point, a label and an orbit line. *)
Definition satellite : CesiumComponentCollection :=
  mkCollection
    [("Point"%string, Entity 1); ("Label"%string, Entity 2);
     ("Orbit"%string, orbitA)]
    true None.


(** The shared host of the example runs. *)
Definition play (inputs : list Input) (w : World Z) : World Z :=
  run alwaysDefined stepping inputs w.

(** An orbit line is shown and rebuilt into primitive 1 (timer 0 fires on
    frame 31, Cesium reports the candidate ready, the next frame installs
    it); then the line is hidden and timer 3 fires on the empty set. *)
Definition showThenHideOrbit : list Input :=
  Enable orbitA :: ticks 31 epoch
  ++ [HostProgress 1 5 true; Tick epoch; Disable orbitA]
  ++ ticks 31 epoch.

(** A line is shown and hidden within one debounce window, so timer 0
    fires on the empty set; the line is shown again (timer 1) and, 31
    frames later, a rebuild into primitive 2 is in flight. *)
Definition toggleThenShow : list Input :=
  [Enable orbitA; Disable orbitA] ++ ticks 31 epoch
  ++ [Enable orbitA] ++ ticks 31 epoch.

(** The frames that follow a mutation made while primitive 2 is under
    construction: Cesium finishes 2, then whatever rebuilds follow (their
    candidates are 5 and 7) are brought to completion as well. *)
Definition finishEverything : list Input :=
  [HostProgress 2 5 true] ++ ticks 31 epoch
  ++ [HostProgress 5 5 true] ++ ticks 31 epoch
  ++ [HostProgress 7 5 true] ++ ticks 31 epoch.

(** The page on which the only thing ever registered is one periodic
    tick callback (handle 0), with its counter at [ticks]. *)
Definition onlyPeriodicTick (Matrix3 : Type) (refreshRate ticks k : nat)
    (time : JulianDate.t) (lg : list LogEvent) : World Matrix3 :=
  mkWorld time [(0, PeriodicTick refreshRate ticks (UserCallback k))] []
    [] [] [] None false false [] 1 lg.

(** *** Predicates on worlds used by the proofs *)

Section Predicates.

Variable Matrix3 : Type.

Implicit Types (w : World Matrix3).

(** The per-tick listeners have distinct handles, all already allocated. *)
Definition wfTicks w : Prop :=
  NoDup (Event.handles (clock_onTick w))
  /\ forall h, In h (Event.handles (clock_onTick w)) -> h < nextId w.

(** Nothing registered or logged carries a handle not yet allocated. *)
Definition wellFormed w : Prop :=
  wfTicks w
  /\ (forall h, nextId w <= h -> Event.lookup h (trackedEntityChanged w) = None)
  /\ (forall h, nextId w <= h -> calls h w = []).

(** [w'] comes from [w] by running per-tick listeners whose handles are in
    [hs], or by operations that only register new listeners: the clock
    stands still, other registrations and their calls are untouched, and a
    handle that is no longer registered stays so. *)
Definition tickFrame (hs : list nat) w w' : Prop :=
  clock_currentTime w' = clock_currentTime w
  /\ nextId w <= nextId w'
  /\ (forall h, ~ In h hs -> h < nextId w ->
        Event.lookup h (clock_onTick w') = Event.lookup h (clock_onTick w))
  /\ (forall h, Event.lookup h (clock_onTick w) = None -> h < nextId w ->
        Event.lookup h (clock_onTick w') = None)
  /\ trackedEntityChanged w' = trackedEntityChanged w
  /\ (forall h, ~ In h hs -> calls h w' = calls h w)
  /\ (wfTicks w -> wfTicks w').

(** [w'] comes from [w] by running change listeners whose handles are in
    [hs]: listeners are only removed. *)
Definition changeFrame (hs : list nat) w w' : Prop :=
  nextId w' = nextId w
  /\ (forall h, Event.lookup h (clock_onTick w) = None ->
        Event.lookup h (clock_onTick w') = None)
  /\ (forall h, ~ In h hs ->
        Event.lookup h (trackedEntityChanged w')
        = Event.lookup h (trackedEntityChanged w))
  /\ (forall h, Event.lookup h (trackedEntityChanged w) = None ->
        Event.lookup h (trackedEntityChanged w') = None)
  /\ (forall h, ~ In h hs -> calls h w' = calls h w)
  /\ (wfTicks w -> wfTicks w').

(** Registration [(hT, hC)] of setTrackedOnTickCallback before the tracked
    entity changes: both listeners registered, onUntrack not yet called. *)
Definition tracking (hT hC a b : nat) w : Prop :=
  hT < nextId w /\ hC < nextId w
  /\ Event.lookup hT (clock_onTick w) = Some (OnTickListener a)
  /\ Event.lookup hC (trackedEntityChanged w) = Some (UntrackListener hT b)
  /\ Event.lookup hC (clock_onTick w) = None
  /\ Event.lookup hT (trackedEntityChanged w) = None
  /\ calls hC w = [].

(** The same registration after the change: neither handle is registered
    anywhere and onUntrack has been called once. *)
Definition untracked (hT hC b : nat) w : Prop :=
  hT < nextId w /\ hC < nextId w
  /\ Event.lookup hT (clock_onTick w) = None
  /\ Event.lookup hC (trackedEntityChanged w) = None
  /\ Event.lookup hC (clock_onTick w) = None
  /\ Event.lookup hT (trackedEntityChanged w) = None
  /\ calls hC w = [OnUntrackCalled hC b].



End Predicates.

(** ** More of CesiumComponentCollection: selection, tracking, callers *)

(** [viewer.selectedEntity], [viewer.trackedEntity] and
    [viewer.clock.shouldAnimate].  Assigning [viewer.trackedEntity] makes
    Cesium raise [trackedEntityChanged]; in the runs above that is the
    input [TrackedEntityChanged]. *)
Record Focus : Type := mkFocus {
  selectedEntity : option Component;
  trackedEntity : option Component;
  clock_shouldAnimate : bool
}.

(** [viewer.selectedEntity === entity] for a stored component. *)
Definition sameObject (o : option Component) (entity : Component) : bool :=
  match o with
  | Some x => Component_eqb x entity
  | None => false
  end.

(** The isSelected getter (l.181-183). *)
Definition isSelected (c : CesiumComponentCollection) (v : Focus) : bool :=
  existsb (fun entity => sameObject (selectedEntity v) entity)
    (map snd (components c)).

(** The isTracked getter (l.185-187). *)
Definition isTracked (c : CesiumComponentCollection) (v : Focus) : bool :=
  existsb (fun entity => sameObject (trackedEntity v) entity)
    (map snd (components c)).

(** track (l.189-210), up to the call of [viewer.flyTo]: the new focus and,
    when a transition was started, the [clockRunning] its continuation
    captured.  The continuation itself runs when Cesium resolves the
    promise and is not part of this call. *)
Definition track (animate : bool) (c : CesiumComponentCollection) (v : Focus)
    : Focus * option bool :=
  match defaultEntity c with
  | None => (v, None)
  | Some d =>
      if negb animate
      then (mkFocus (selectedEntity v) (Some d) (clock_shouldAnimate v), None)
      else
        let clockRunning := clock_shouldAnimate v in
        (mkFocus (selectedEntity v) None false, Some clockRunning)
  end.

(** The constructor of GroundStationEntity (part_002 l.21-44): a lazy
    collection whose one component, the billboard entity, is created at
    once under the name "Groundstation". *)
Definition GroundStationEntity (id : nat) : CesiumComponentCollection :=
  createCesiumEntity "Groundstation" id (mkCollection [] true None).

(** The components the viewer can hold itself. *)
Definition isSceneObject (c : Component) : bool :=
  match c with
  | Entity _ | Primitive _ => true
  | _ => false
  end.

Section Calls.

Variable Matrix3 : Type.

(** Whether the viewer holds a component. *)
Definition installed (component : Component) (w : World Matrix3) : bool :=
  match component with
  | Entity e => contains e (entities w)
  | Primitive p => contains p (scene_primitives w)
  | _ => false
  end.

(** The calls client code makes on one collection. *)
Inductive CollectionCall : Type :=
| CallShow (names : list string)
| CallShowAll
| CallHide (names : list string)
| CallHideAll
| CallCreateCesiumEntity (componentName : string) (id : nat).

Definition call (cw : CesiumComponentCollection * World Matrix3)
    (k : CollectionCall) : CesiumComponentCollection * World Matrix3 :=
  match k with
  | CallShow names => show names cw
  | CallShowAll => showAll cw
  | CallHide names => hide names cw
  | CallHideAll => hideAll cw
  | CallCreateCesiumEntity n id => (createCesiumEntity n id (fst cw), snd cw)
  end.

End Calls.

(** The geometry instances a collection stores. *)
Definition ownGeometry (c : CesiumComponentCollection) : list Component :=
  filter isGeometryInstance (map snd (components c)).

(** [geometry] is one of [own]. *)
Definition isOneOf (own : list Component) (geometry : Component) : bool :=
  existsb (Component_eqb geometry) own.

(** ** The viewer's collections along a run *)

Section ScenePredicates.

Variable Matrix3 : Type.

(** The scene's primitive collection holds the current batched primitive
    and nothing else. *)
Definition sceneHoldsCurrent (w : World Matrix3) : Prop :=
  scene_primitives w
  = match primitive w with
    | Some p => [p]
    | None => []
    end.

(** What a world transformer does to the viewer's own collections:
    [viewer.entities] is untouched and the scene keeps holding exactly the
    current batched primitive. *)
Definition keepsScene (w w' : World Matrix3) : Prop :=
  entities w' = entities w
  /\ (sceneHoldsCurrent w -> sceneHoldsCurrent w').


(** The listeners of client code registered through CesiumCallbackHelper. *)
Definition isClientPeriodic (l : TickListener) : bool :=
  match l with
  | PeriodicTick _ _ (UserCallback _) => true
  | PeriodicTime _ _ (UserCallback _) => true
  | _ => false
  end.

End ScenePredicates.

(** ** The satellite store's url parameters (src/unnamed/part_001, sat.js)

    [enabledComponents], [enabledSatellites] and [enabledTags] are lists
    of names kept in the url as one comma-separated string in which a
    space is written as another character ("-" or "~").  Separators,
    patterns and replacements are one-character strings in every use, so
    they are characters here. *)

Module UrlParam.

Open Scope string_scope.

(** [array.join(separator)]. *)
Fixpoint join (separator : ascii) (l : list string) : string :=
  match l with
  | [] => ""
  | [x] => x
  | x :: rest => x ++ String separator (join separator rest)
  end.

(** [string.replaceAll(pattern, replacement)]. *)
Fixpoint replaceAll (pattern replacement : ascii) (s : string) : string :=
  match s with
  | "" => ""
  | String c rest =>
      String (if Ascii.eqb c pattern then replacement else c)
        (replaceAll pattern replacement rest)
  end.

(** [string.split(separator)]: the pieces between separators; the empty
    string gives one empty piece. *)
Fixpoint split (separator : ascii) (s : string) : list string :=
  match s with
  | "" => [""]
  | String c rest =>
      if Ascii.eqb c separator then "" :: split separator rest
      else match split separator rest with
           | piece :: pieces => String c piece :: pieces
           | [] => [String c ""]
           end
  end.

(** [(e) => e] as a filter: the empty string is falsy. *)
Definition truthy (e : string) : bool :=
  match e with
  | "" => false
  | String _ _ => true
  end.

(** [serialize: (v) => v.join(",").replaceAll(" ", r)]. *)
Definition serialize (r : ascii) (v : list string) : string :=
  replaceAll " " r (join "," v).

(** [deserialize: (v) => v.replaceAll(r, " ").split(",").filter((e) => e)]. *)
Definition deserialize (r : ascii) (v : string) : list string :=
  filter truthy (split "," (replaceAll r " " v)).

(** The three entries of [urlsync.config] (l.21-37). *)
Definition enabledComponents_serialize := serialize "-".
Definition enabledComponents_deserialize := deserialize "-".
Definition enabledSatellites_serialize := serialize "~".
Definition enabledSatellites_deserialize := deserialize "~".
Definition enabledTags_serialize := serialize "-".
Definition enabledTags_deserialize := deserialize "-".

(** Whether a character occurs in a string. *)
Fixpoint occurs (c : ascii) (s : string) : bool :=
  match s with
  | "" => false
  | String d rest => Ascii.eqb d c || occurs c rest
  end.

(** A name that survives the url: not empty, no comma, and none of the
    character that stands for the space. *)
Definition plain (r : ascii) (e : string) : bool :=
  truthy e && negb (occurs "," e) && negb (occurs r e).

End UrlParam.

(** ** Store state in the url (src/src/modules/util/pinia-plugin-url-sync.ts)

    The values of a store are of a type [Value] the plugin does not look
    into; [String(v)] is a parameter.  Names of synced state have no dot,
    as in the stores of this application, so [resolve] and [store[name]]
    read the same entry.  The query of the current route and the search
    parameters of the location are one list of pairs. *)

Module UrlSync.

Open Scope string_scope.

(** [URLSearchParams]: get, has, delete and set. *)
Definition Params := list (string * string).

Fixpoint lookup (param : string) (params : Params) : option string :=
  match params with
  | [] => None
  | (k, v) :: rest => if String.eqb k param then Some v else lookup param rest
  end.

Definition delete (param : string) (params : Params) : Params :=
  filter (fun kv => negb (String.eqb (fst kv) param)) params.

Fixpoint set (param value : string) (params : Params) : Params :=
  match params with
  | [] => [(param, value)]
  | (k, v) :: rest =>
      if String.eqb k param then (param, value) :: delete param rest
      else (k, v) :: set param value rest
  end.

Section Plugin.

Variable Value : Type.
(** [String(v)] on a value, and a string read as a value. *)
Variable toString : Value -> string.
Variable ofString : string -> Value.

(** A [SyncConfigEntry] (l.10-17).  A [deserialize] that throws gives
    [None].  The field [default] is never read by the plugin. *)
Record SyncConfigEntry := mkEntry {
  name : string;
  url : option string;
  serialize : option (Value -> string);
  deserialize : option (string -> option Value);
  valid : option (Value -> bool)
}.

(** The store: its state by name, [store.defaults], and the url
    parameters that were found invalid and taken out of the route. *)
Record Store := mkStore {
  state : string -> Value;
  defaults : string -> option Value;
  rejected : list string
}.

Definition defaultSerialize (v : Value) : string := toString v.
Definition defaultDeserialize (v : string) : option Value := Some (ofString v).

(** [config.url || config.name]. *)
Definition param (config : SyncConfigEntry) : string :=
  match url config with
  | Some u => if String.eqb u "" then name config else u
  | None => name config
  end.

Definition serializer (config : SyncConfigEntry) : Value -> string :=
  match serialize config with
  | Some f => f
  | None => defaultSerialize
  end.

Definition deserializer (config : SyncConfigEntry) : string -> option Value :=
  match deserialize config with
  | Some f => f
  | None => defaultDeserialize
  end.

Definition write {A} (k : string) (v : A) (f : string -> A) : string -> A :=
  fun k' => if String.eqb k' k then v else f k'.

(** [resolve(path, obj)] (l.21-24) for a name without a dot. *)
Definition resolve (path : string) (store : Store) : Value := state store path.

(** One pass of the loop of [urlToState] (l.38-62). *)
Definition urlToStateEntry (query : Params) (store : Store)
    (config : SyncConfigEntry) : Store :=
  let param := param config in
  let store :=
    mkStore (state store)
      (write (name config) (Some (state store (name config))) (defaults store))
      (rejected store) in
  match lookup param query with
  | None => store
  | Some text =>
      match deserializer config text with
      | Some value =>
          if match valid config with
             | Some valid => negb (valid value)
             | None => false
             end
          then mkStore (state store) (defaults store) (rejected store ++ [param])
          else mkStore (write (name config) value (state store))
                 (defaults store) (rejected store)
      | None => mkStore (state store) (defaults store) (rejected store ++ [param])
      end
  end.

(** [urlToState(store, syncConfig)] (l.26-63); [customConfig] is the
    list of entries the application configured for this store. *)
Definition urlToState (customConfig : list (string * Value))
    (syncConfig : list SyncConfigEntry) (query : Params) (store : Store)
  : Store :=
  let store := mkStore (state store) (fun _ => None) (rejected store) in
  let store :=
    fold_left
      (fun store kv =>
         mkStore (write (fst kv) (snd kv) (state store)) (defaults store)
           (rejected store))
      customConfig store in
  fold_left (urlToStateEntry query) syncConfig store.

(** One pass of the loop of [stateToUrl] (l.70-81). *)
Definition stateToUrlEntry (store : Store) (params : Params)
    (config : SyncConfigEntry) : Params :=
  let value := resolve (name config) store in
  let param := param config in
  let serialize := serializer config in
  match defaults store (name config) with
  | Some d =>
      if String.eqb (serialize d) (serialize value)
      then delete param params
      else set param (serialize value) params
  | None => set param (serialize value) params
  end.

(** [stateToUrl(store, syncConfig)] (l.65-83): the parameters pushed to
    the history. *)
Definition stateToUrl (syncConfig : list SyncConfigEntry) (store : Store)
    (params : Params) : Params :=
  fold_left (stateToUrlEntry store) syncConfig params.

(** A value the url can carry for an entry: it is read back as written
    and passes validation. *)
Definition carried (config : SyncConfigEntry) (v : Value) : Prop :=
  deserializer config (serializer config v) = Some v
  /\ match valid config with
     | Some valid => valid v = true
     | None => True
     end.

End Plugin.

End UrlSync.

(** The list entries of the satellite store's [urlsync.config]
    (src/unnamed/part_001 l.20-37), over lists of names. *)
Definition satStoreSync : list (UrlSync.SyncConfigEntry (list string)) :=
  [UrlSync.mkEntry "enabledComponents" (Some "elements"%string)
     (Some UrlParam.enabledComponents_serialize)
     (Some (fun v => Some (UrlParam.enabledComponents_deserialize v))) None;
   UrlSync.mkEntry "enabledSatellites" (Some "sats"%string)
     (Some UrlParam.enabledSatellites_serialize)
     (Some (fun v => Some (UrlParam.enabledSatellites_deserialize v))) None;
   UrlSync.mkEntry "enabledTags" (Some "tags"%string)
     (Some UrlParam.enabledTags_serialize)
     (Some (fun v => Some (UrlParam.enabledTags_deserialize v))) None].

(** The state the satellite store starts with (l.9-17), and a state a
    user may have reached. *)
Definition satStoreInitial : UrlSync.Store (list string) :=
  UrlSync.mkStore
    (fun name =>
       if String.eqb name "enabledComponents" then ["Point"; "Label"]%string
       else [])
    (fun _ => None) [].

Definition satStoreInUse : UrlSync.Store (list string) :=
  UrlSync.mkStore
    (fun name =>
       if String.eqb name "enabledComponents"
       then ["Point"; "Sensor cone"]%string
       else if String.eqb name "enabledSatellites"
       then ["ISS (ZARYA)"; "NOAA 19"]%string
       else [])
    (fun name => Some (UrlSync.state satStoreInitial name)) [].

(** ** The passes of a ground station (src/unnamed/part_002, l.54-68)

    A pass is the object the satellites' orbit code hands over; [passes]
    reads its [start], a time in milliseconds, and nothing else.  The
    satellite it belongs to stands for the other fields. *)

Module Passes.








End Passes.

(** ** Push notifications (src/src/modules/util/PushManager.js)

    Dates are times in milliseconds.  The browser is what a call finds
    in [window] at the moment it runs; [setTimeout] hands out the id.
    Messages posted to the iOS handler are kept in a log. *)

Module PushManager.

Inductive Permission := granted | default | denied | otherPermission.

Record Window := mkWindow {
  webkit : bool;            (* "webkit" in window *)
  notificationApi : bool;   (* Notification and ServiceWorkerRegistration *)
  permission : Permission;  (* Notification.permission *)
  now : Z                   (* dayjs() *)
}.

Record Timer := mkTimer { id : nat; date : Z; message : string }.

Record t := mk {
  timers : list Timer;
  iosNotify : list (Z * string)
}.

Definition constructor : t := mk [] [].

(** [get available()] (l.23-42); asking for the permission does not
    change the answer of this call. *)
Definition available (window : Window) : bool :=
  if webkit window then true
  else if negb (notificationApi window) then false
  else match permission window with
       | granted => true
       | default => true
       | denied => false
       | otherPermission => false
       end.

Definition active (this : t) : bool :=
  (0 <? List.length (timers this))%nat.

Definition clearTimers (this : t) : t := mk [] (iosNotify this).

(** [a.diff(b, "seconds")]: cut towards zero. *)
Definition diffSeconds (a b : Z) : Z := Z.quot (a - b) 1000.

(** [notifyAtDate(date, message, options)] (l.83-112). *)
Definition notifyAtDate (window : Window) (timeoutId : nat) (d : Z)
    (m : string) (this : t) : t :=
  if negb (available window) then this
  else
    let waitMs := (d - now window)%Z in
    if (waitMs <? 0)%Z then this
    else if existsb (fun timer => (Z.abs (diffSeconds (date timer) d) <? 10)%Z)
              (timers this)
    then this
    else if webkit window
    then mk (timers this) (iosNotify this ++ [(d, m)])
    else mk (timers this ++ [mkTimer timeoutId d m]) (iosNotify this).

Inductive Call :=
  | NotifyAtDate (window : Window) (timeoutId : nat) (d : Z) (m : string)
  | ClearTimers.

Definition call (this : t) (k : Call) : t :=
  match k with
  | NotifyAtDate window timeoutId d m => notifyAtDate window timeoutId d m this
  | ClearTimers => clearTimers this
  end.

(** Two timers ten seconds apart or more. *)
Definition apart (a b : Timer) : Prop := (10000 <= Z.abs (date a - date b))%Z.

Definition onWebkit (k : Call) : bool :=
  match k with
  | NotifyAtDate window _ _ _ => webkit window
  | ClearTimers => true
  end.

(** The messages a list of calls asks for at dates that are not past. *)
Fixpoint requested (calls : list Call) : list (Z * string) :=
  match calls with
  | [] => []
  | NotifyAtDate window _ d m :: rest =>
      if (d - now window <? 0)%Z then requested rest
      else (d, m) :: requested rest
  | ClearTimers :: rest => requested rest
  end.

End PushManager.

(** ** Highlighted ranges of the timeline (src/unnamed/part_004)

    The timeline widget holds the ranges; each [updateFromClock] with
    its [zoomTo] is counted as one redraw.  [viewer.timeline] may be
    missing. *)

Module CesiumTimelineHelper.

Section Ranges.

(** A range as the caller gives it, and Cesium's conversion of its two
    ends, [JulianDate.fromDate(new Date(range.start))] and the same of
    [range.end]. *)
Variable Range : Type.
Variable fromRange : Range -> JulianDate.t * JulianDate.t.

Record Timeline := mkTimeline {
  _highlightRanges : list (JulianDate.t * JulianDate.t);
  redraws : nat
}.

Definition clearHighlightRanges (timeline : option Timeline)
  : option Timeline :=
  match timeline with
  | None => None
  | Some tl =>
      match _highlightRanges tl with
      | [] => Some tl
      | _ :: _ => Some (mkTimeline [] (redraws tl + 1))
      end
  end.

Definition addHighlightRanges (timeline : option Timeline)
    (ranges : list Range) : option Timeline :=
  match timeline with
  | None => None
  | Some tl =>
      Some (fold_left
              (fun tl range =>
                 mkTimeline (_highlightRanges tl ++ [fromRange range])
                   (redraws tl + 1))
              ranges tl)
  end.

Definition updateHighlightRanges (timeline : option Timeline)
    (ranges : list Range) : option Timeline :=
  addHighlightRanges (clearHighlightRanges timeline) ranges.

End Ranges.

End CesiumTimelineHelper.

(** ** Raw samples of a sampled position
       (CesiumSampledPositionRawValueAccess.js, in
       src/src/modules/CesiumController.js l.580-629)

    The property keeps the sample times in [_times], ascending, and the
    packed samples in [_values].  Cesium's [binarySearch] is a parameter:
    what the code relies on is its contract, stated for one query by
    [meetsContract]. *)

Module SampledPositionProperty.

(** [JulianDate.compare(left, right)]: negative, zero or positive. *)
Definition compare (left right : JulianDate.t) : Z :=
  let julianDayNumberDifference :=
    (JulianDate.dayNumber left - JulianDate.dayNumber right)%Z in
  if negb (julianDayNumberDifference =? 0)%Z then julianDayNumberDifference
  else (JulianDate.secondsOfDay left - JulianDate.secondsOfDay right)%Z.

(** The contract of [binarySearch(array, itemToFind, comparator)] for
    the answer [r]: the index of the item if it is in the array, else the
    bitwise complement of the index before which it would be inserted. *)
Definition meetsContract (times : list JulianDate.t) (itemToFind : JulianDate.t)
    (r : Z) : bool :=
  if (0 <=? r)%Z
  then match nth_error times (Z.to_nat r) with
       | Some t => (compare t itemToFind =? 0)%Z
       | None => false
       end
  else
    let i := Z.to_nat (Z.lnot r) in
    (i <=? List.length times)%nat
    && forallb (fun t => (compare t itemToFind <? 0)%Z) (firstn i times)
    && forallb (fun t => (0 <? compare t itemToFind)%Z) (skipn i times).

(** The index a search answer stands for, once complemented. *)
Definition position (r : Z) : nat :=
  Z.to_nat (if (r <? 0)%Z then Z.lnot r else r).

Section Property.

Variable Values Packed : Type.
(** [innerType.unpack(values, offset)] and [innerType.packedLength]. *)
Variable unpack : Values -> nat -> Packed.
Variable packedLength : nat.
Variable binarySearch : list JulianDate.t -> JulianDate.t -> Z.

Record t := mk { _times : list JulianDate.t; _values : Values }.

(** [getRawValues(start, end)] (l.599-620). *)
Definition getRawValues (this : t) (start end_ : JulianDate.t) : list Packed :=
  let times := _times this in
  if (List.length times =? 0)%nat then []
  else
    let values := _values this in
    let startIndex := binarySearch times start in
    let endIndex := binarySearch times end_ in
    let startIndex := if (startIndex <? 0)%Z then Z.lnot startIndex else startIndex in
    let endIndex := if (endIndex <? 0)%Z then Z.lnot endIndex else endIndex in
    map (fun i => unpack values (i * packedLength))
      (seq (Z.to_nat startIndex) (Z.to_nat endIndex - Z.to_nat startIndex)).

(** [length()] (l.627-629). *)
Definition length (this : t) : nat := List.length (_times this).

(** The indices of the samples at or after [start] and before [end]. *)
Definition within (this : t) (start end_ : JulianDate.t) : list nat :=
  filter (fun i =>
            match nth_error (_times this) i with
            | Some t => (0 <=? compare t start)%Z && (compare t end_ <? 0)%Z
            | None => false
            end)
    (seq 0 (length this)).

End Property.

Definition ascending (times : list JulianDate.t) : Prop :=
  StronglySorted (fun a b => (compare a b < 0)%Z) times.

End SampledPositionProperty.

(** * Properties *)

Lemma Component_eqb_eq (a b : Component) : Component_eqb a b = true <-> a = b.
Proof.
  destruct a, b; simpl; rewrite ?Nat.eqb_eq; split; intro H;
    try discriminate; try (inversion H; reflexivity); subst; reflexivity.
Qed.

Lemma Component_eqb_refl (a : Component) : Component_eqb a a = true.
Proof. apply Component_eqb_eq; reflexivity. Qed.


(** ** Cesium.Event: lookups after a change of the listener table *)

Section EventFacts.

Variable L : Type.

Implicit Types (ev : Event.t L) (h : nat).

Lemma lookup_update h h' l ev :
  Event.lookup h (Event.update h' l ev)
  = if Nat.eqb h' h
    then match Event.lookup h ev with Some _ => Some l | None => None end
    else Event.lookup h ev.
Proof.
  induction ev as [|[a x] ev IH]; simpl.
  - destruct (Nat.eqb h' h); reflexivity.
  - destruct (Nat.eqb_spec a h') as [->|Hah]; simpl.
    + destruct (Nat.eqb_spec h' h) as [->|Hne]; [reflexivity|]. exact IH.
    + destruct (Nat.eqb_spec a h) as [->|Hne].
      * destruct (Nat.eqb_spec h' h) as [->|_]; [congruence|reflexivity].
      * exact IH.
Qed.

Lemma lookup_remove h h' ev :
  Event.lookup h (Event.removeEventListener h' ev)
  = if Nat.eqb h' h then None else Event.lookup h ev.
Proof.
  induction ev as [|[a x] ev IH]; simpl.
  - destruct (Nat.eqb h' h); reflexivity.
  - destruct (Nat.eqb_spec a h') as [->|Hah]; simpl.
    + rewrite IH. destruct (Nat.eqb_spec h' h); reflexivity.
    + rewrite IH. destruct (Nat.eqb_spec a h) as [->|Hne]; [|reflexivity].
      destruct (Nat.eqb_spec h' h) as [->|_]; [congruence|reflexivity].
Qed.

Lemma lookup_add h h' l ev :
  Event.lookup h (Event.addEventListener h' l ev)
  = match Event.lookup h ev with
    | Some x => Some x
    | None => if Nat.eqb h' h then Some l else None
    end.
Proof.
  unfold Event.addEventListener.
  induction ev as [|[a x] ev IH]; simpl; [reflexivity|].
  destruct (Nat.eqb a h); [reflexivity|exact IH].
Qed.

Lemma lookup_None h ev :
  Event.lookup h ev = None <-> ~ In h (Event.handles ev).
Proof.
  induction ev as [|[a x] ev IH]; simpl; [tauto|].
  destruct (Nat.eqb_spec a h) as [->|Hne].
  - split; [discriminate|]. intros H. exfalso. apply H. now left.
  - rewrite IH. tauto.
Qed.

Lemma lookup_Some_In h l ev :
  Event.lookup h ev = Some l -> In h (Event.handles ev).
Proof.
  intros H. destruct (in_dec Nat.eq_dec h (Event.handles ev)) as [Hin|Hout];
    [exact Hin|]. apply lookup_None in Hout. congruence.
Qed.

Lemma handles_update h l ev :
  Event.handles (Event.update h l ev) = Event.handles ev.
Proof.
  unfold Event.handles, Event.update. rewrite map_map.
  apply map_ext_in. intros [a x] _. simpl.
  destruct (Nat.eqb_spec a h) as [->|_]; reflexivity.
Qed.

Lemma handles_remove h ev :
  Event.handles (Event.removeEventListener h ev)
  = filter (fun a => negb (Nat.eqb a h)) (Event.handles ev).
Proof.
  unfold Event.handles, Event.removeEventListener.
  induction ev as [|[a x] ev IH]; simpl; [reflexivity|].
  destruct (Nat.eqb a h); simpl; rewrite IH; reflexivity.
Qed.

Lemma handles_add h l ev :
  Event.handles (Event.addEventListener h l ev) = Event.handles ev ++ [h].
Proof.
  unfold Event.handles, Event.addEventListener. rewrite map_app. reflexivity.
Qed.

End EventFacts.

(** ** The per-object store *)

Section Store.

Variable Matrix3 : Type.

Implicit Types (c : CesiumComponentCollection) (w : World Matrix3).

Lemma enableComponent_components name (cw : CesiumComponentCollection * World Matrix3) :
  components (fst (enableComponent name cw)) = components (fst cw).
Proof.
  destruct cw as [c w]. unfold enableComponent.
  destruct (get name (components c)); [destruct (defaultEntity c)|]; reflexivity.
Qed.

Lemma show_components names : forall cw : CesiumComponentCollection * World Matrix3,
  components (fst (show names cw)) = components (fst cw).
Proof.
  induction names as [|n names IH]; intros cw; [reflexivity|].
  change (show (n :: names) cw) with (show names (enableComponent n cw)).
  rewrite IH. apply enableComponent_components.
Qed.


Lemma delete_absent name (m : list (string * Component)) :
  ~ In name (map fst m) -> delete name m = m.
Proof.
  induction m as [|[n x] m IH]; intros Hn; [reflexivity|].
  simpl in *. destruct (String.eqb_spec n name) as [->|_].
  - exfalso. apply Hn. now left.
  - simpl. f_equal. apply IH. intro H. apply Hn. now right.
Qed.

Lemma hide_snapshot (m : list (string * Component)) : forall d w,
  NoDup (map fst m) ->
  hide (map fst m) (mkCollection m true d, w)
  = (mkCollection [] true d,
     fold_left (fun w component => disableInWorld component w) (map snd m) w).
Proof.
  induction m as [|[n x] m IH]; intros d w Hnd; [reflexivity|].
  inversion Hnd as [|? ? Hn Hnd']; subst.
  change (hide (map fst ((n, x) :: m)) (mkCollection ((n, x) :: m) true d, w))
    with (hide (map fst m)
            (disableComponent n (mkCollection ((n, x) :: m) true d, w))).
  assert (E : disableComponent n (mkCollection ((n, x) :: m) true d, w)
              = (mkCollection m true d, disableInWorld x w)).
  { unfold disableComponent. simpl. rewrite String.eqb_refl. simpl.
    rewrite delete_absent by exact Hn. reflexivity. }
  rewrite E. simpl map. simpl fold_left. apply IH. exact Hnd'.
Qed.


(** C10: the visibleComponents getter.  A stored component is reported
    exactly when it is an Entity contained in [viewer.entities] or a
    Primitive contained in [viewer.scene.primitives]; a GeometryInstance is
    never reported, whatever the scene holds. *)
Theorem visibleComponents_spec c w component :
  (In component (visibleComponents c w) <->
   In component (map snd (components c)) /\
   match component with
   | Entity e => contains e (entities w) = true
   | Primitive p => contains p (scene_primitives w) = true
   | GeometryInstance _ => False
   | OtherObject _ => False
   end)
  /\ existsb isGeometryInstance (visibleComponents c w) = false.
Proof.
  split.
  - unfold visibleComponents. rewrite filter_In.
    destruct component; intuition discriminate.
  - unfold visibleComponents.
    induction (map snd (components c)) as [|x l IH]; [reflexivity|].
    simpl. destruct x; simpl; try exact IH;
      match goal with |- context [if ?b then _ else _] => destruct b end;
      simpl; exact IH.
Qed.

Lemma enableInWorld_geometry_appends g w :
  geometries (enableInWorld (GeometryInstance g) w)
  = geometries w ++ [GeometryInstance g].
Proof.
  unfold enableInWorld, recreateGeometryInstancePrimitive. simpl.
  destruct (primitivePendingUpdate w); reflexivity.
Qed.

Lemma enableComponent_geometry name g c w :
  get name (components c) = Some (GeometryInstance g) ->
  components (fst (enableComponent name (c, w))) = components c
  /\ snd (enableComponent name (c, w)) = enableInWorld (GeometryInstance g) w.
Proof.
  intros H. unfold enableComponent. rewrite H.
  destruct (defaultEntity c); split; reflexivity.
Qed.

(** C6: the code at [show([name]); show([name])] for any collection in
    which [name] is a GeometryInstance: the instance is pushed onto the
    contribution list on each call, so the list ends with it twice. *)
Theorem show_twice_contributes_twice name g c w :
  get name (components c) = Some (GeometryInstance g) ->
  geometries (snd (show [name] (show [name] (c, w))))
  = geometries w ++ [GeometryInstance g; GeometryInstance g].
Proof.
  intros H.
  change (show [name] (show [name] (c, w)))
    with (enableComponent name (enableComponent name (c, w))).
  destruct (@enableComponent_geometry name g c w H) as [Hc Hw].
  destruct (enableComponent name (c, w)) as [c1 w1]. cbn [fst snd] in Hc, Hw.
  rewrite <- Hc in H.
  destruct (@enableComponent_geometry name g c1 w1 H) as [_ Hw2].
  rewrite Hw2, Hw, !enableInWorld_geometry_appends, <- app_assoc.
  reflexivity.
Qed.

End Store.


Lemma show_twice_contributes_twice_witness :
  geometries
    (snd (show ["Orbit"%string]
            (show ["Orbit"%string] (satellite, initialWorld Z epoch))))
  = [orbitA; orbitA].
Proof.
  apply (@show_twice_contributes_twice Z "Orbit"%string 101 satellite
           (initialWorld Z epoch)).
  reflexivity.
Defined.


(** ** The batched primitive *)

Section Batch.

Variable Matrix3 : Type.
Variable computeIcrfToFixedMatrix : JulianDate.t -> option Matrix3.
Variable Primitive_update : CesiumPrimitive Matrix3 -> CesiumPrimitive Matrix3.

Implicit Types (w : World Matrix3) (h p : nat).

Lemma contains_app_self x (l : list nat) : contains x (l ++ [x]) = true.
Proof.
  unfold contains. rewrite existsb_app. simpl. rewrite Nat.eqb_refl.
  rewrite orb_true_r. reflexivity.
Qed.

Lemma deref_store p obj obj' w :
  deref p w = Some obj -> deref p (store p obj' w) = Some obj'.
Proof.
  unfold deref, store. simpl. intros H.
  rewrite lookup_update, Nat.eqb_refl, H. reflexivity.
Qed.

(** C2, as amended: the run of the polling listener that finds its
    candidate ready.  The placement transform becomes the inertial-to-fixed
    rotation at the clock's time on that frame when the provider has one,
    and is left as it was when the provider returns undefined; either way
    the candidate is installed as the current primitive on that same frame
    and the listener removes itself, so nothing is tried again. *)
Theorem readyListener_installs h p lastState obj w :
  deref p w = Some obj ->
  ready obj = true ->
  let w' := readyListener computeIcrfToFixedMatrix Primitive_update
              h p lastState w in
  deref p w'
  = Some (mkPrimitive true (_state obj)
            match computeIcrfToFixedMatrix (clock_currentTime w) with
            | Some icrfToFixed => fromRotationTranslation icrfToFixed
            | None => modelMatrix obj
            end)
  /\ primitive w' = Some p
  /\ contains p (scene_primitives w') = true
  /\ primitivePendingCreation w' = false
  /\ Event.lookup h (clock_onTick w') = None.
Proof.
  intros Hp Hready. unfold readyListener. rewrite Hp, Hready. simpl negb. cbv iota.
  destruct obj as [r st mm]. simpl in Hready. subst r.
  destruct w as [t ot tc en sp ge pr pu pc hp ni lg].
  unfold deref in *. cbn in Hp. cbn [clock_currentTime].
  destruct (computeIcrfToFixedMatrix t) as [m|]; destruct pr as [old|];
    cbn -[Event.update Event.removeEventListener Event.lookup];
    rewrite ?lookup_update, ?lookup_remove, ?Nat.eqb_refl, ?Hp;
    (split; [reflexivity|]); (split; [reflexivity|]);
    (split; [apply contains_app_self|]); split; reflexivity.
Qed.

(** What the debounce callback does when it fires on an empty contribution
    list with no creation pending: the current primitive leaves the scene,
    the reference is cleared, both flags are down -- and the listener table
    is left as it is: [removeCallback] is only reached on the other path. *)
Lemma recreateCallback_empty removeCallback w :
  primitivePendingCreation w = false ->
  geometries w = [] ->
  let w' := recreateCallback removeCallback w in
  primitive w' = None
  /\ primitivePendingUpdate w' = false
  /\ primitivePendingCreation w' = false
  /\ (forall old, primitive w = Some old ->
        contains old (scene_primitives w') = false)
  /\ clock_onTick w' = clock_onTick w.
Proof.
  intros Hc Hg. unfold recreateCallback. rewrite Hc. simpl. rewrite Hg.
  destruct (primitive w) as [old|]; simpl; repeat split; try exact Hc;
    try discriminate.
  intros old' [= <-]. unfold contains, remove.
  induction (scene_primitives w) as [|x l IH]; [reflexivity|].
  simpl. destruct (Nat.eqb_spec x old) as [->|Hne]; simpl; [exact IH|].
  rewrite IH. destruct (Nat.eqb_spec old x); [congruence|reflexivity].
Qed.

(** The same at the level of the debounce listener [h]: after it has fired
    on an empty list it is still registered, with its counter back at 0. *)
Lemma debounce_listener_stays_registered h n c w :
  Event.lookup h (clock_onTick w) = Some (PeriodicTick n c RecreateCallback) ->
  n <= c ->
  primitivePendingCreation w = false ->
  geometries w = [] ->
  let w' := runTickListener computeIcrfToFixedMatrix Primitive_update h
              (PeriodicTick n c RecreateCallback) w in
  primitive w' = None
  /\ primitivePendingUpdate w' = false
  /\ primitivePendingCreation w' = false
  /\ Event.lookup h (clock_onTick w') = Some (PeriodicTick n 0 RecreateCallback).
Proof.
  intros Hh Hc Hpc Hg. unfold runTickListener.
  destruct (Nat.ltb_spec c n) as [Hlt|_]; [lia|].
  destruct w as [t ot tc en sp ge pr pu pc hp ni lg]. simpl in Hh, Hpc, Hg.
  subst pc ge.
  destruct pr as [old|]; cbn -[Event.update Event.lookup];
    rewrite lookup_update, Nat.eqb_refl, Hh; repeat split.
Qed.

End Batch.

Lemma readyListener_installs_witness :
  let w := set_currentTime (secondsAfterEpoch 500)
             (play (Enable orbitA :: ticks 31 epoch ++ [HostProgress 1 5 true])
                (initialWorld Z epoch)) in
  let w' := readyListener alwaysDefined stepping 2 1 0 w in
  deref 1 w' = Some (mkPrimitive true 5 (fromRotationTranslation 500%Z))
  /\ primitive w' = Some 1
  /\ contains 1 (scene_primitives w') = true
  /\ primitivePendingCreation w' = false
  /\ Event.lookup 2 (clock_onTick w') = None.
Proof.
  apply (@readyListener_installs Z alwaysDefined stepping 2 1 0%Z
           (mkPrimitive true 5 (IDENTITY Z))); reflexivity.
Defined.

(** C2, as stated, fails.  The candidate (primitive 1) is reported ready
    while the provider still returns undefined (second 50).  The frame at
    second 50 installs it at once, without a transform, and leaves no
    listener behind; the frame at second 150, when the provider has a
    rotation, changes nothing. *)
Lemma undefined_transform_is_not_retried :
  let w := run definedFrom100 stepping
             (Enable orbitA :: ticks 31 epoch
              ++ [HostProgress 1 5 true; Tick (secondsAfterEpoch 50)])
             (initialWorld Z epoch) in
  let w' := run definedFrom100 stepping [Tick (secondsAfterEpoch 150)] w in
  definedFrom100 (secondsAfterEpoch 50) = None
  /\ primitive w = Some 1
  /\ scene_primitives w = [1]
  /\ clock_onTick w = []
  /\ deref 1 w = Some (mkPrimitive true 5 (IDENTITY Z))
  /\ definedFrom100 (secondsAfterEpoch 150) = Some 150%Z
  /\ deref 1 w' = Some (mkPrimitive true 5 (IDENTITY Z)).
Proof. vm_compute. repeat split. Qed.

(** C3: the code at [showThenHideOrbit].  When timer 3 fires on the empty
    contribution list the installed primitive is removed and the machine
    is idle, but the timer is still registered; with no further mutation
    it fires again 31 frames later. *)
Theorem debounce_timer_survives_empty_firing :
  let w := play showThenHideOrbit (initialWorld Z epoch) in
  let w' := play (ticks 31 epoch) w in
  (primitive w = None /\ scene_primitives w = []
   /\ primitivePendingUpdate w = false /\ primitivePendingCreation w = false)
  /\ clock_onTick w = [(3, PeriodicTick 30 0 RecreateCallback)]
  /\ calls 3 w = [Invoked 3 RecreateCallback epoch]
  /\ calls 3 w' = [Invoked 3 RecreateCallback epoch;
                   Invoked 3 RecreateCallback epoch].
Proof. vm_compute. repeat split. Qed.

(** C1: the code at [toggleThenShow] followed by one mutation.  While
    primitive 2 is being created a single [Enable] leaves two debounce
    timers queued (1, left from before, and 4), and once creation has
    finished two more rebuilds are performed (candidates 5 and 7) although
    nothing was mutated after the first of them. *)
Theorem two_followups_after_one_mutation :
  let w := play toggleThenShow (initialWorld Z epoch) in
  let w1 := play [Enable orbitB] w in
  let w2 := play finishEverything w1 in
  (primitivePendingCreation w = true /\ rebuildsInFlight w = 1
   /\ rebuildsStarted w = 1)
  /\ (primitivePendingCreation w1 = true /\ queuedRebuilds w1 = 2)
  /\ (rebuildsStarted w2 = 3 /\ map fst (heap w2) = [2; 5; 7]
      /\ primitive w2 = Some 7).
Proof. vm_compute. repeat split. Qed.

(** ** The scheduler *)

Section Scheduler.

Variable Matrix3 : Type.
Variable computeIcrfToFixedMatrix : JulianDate.t -> option Matrix3.
Variable Primitive_update : CesiumPrimitive Matrix3 -> CesiumPrimitive Matrix3.

Local Abbreviation frame := (tick computeIcrfToFixedMatrix Primitive_update).
Local Abbreviation runs := (run computeIcrfToFixedMatrix Primitive_update).

Lemma tick_onlyPeriodicTick n c k t t' lg :
  frame t' (onlyPeriodicTick Matrix3 n c k t lg)
  = if c <? n
    then onlyPeriodicTick Matrix3 n (c + 1) k t' lg
    else onlyPeriodicTick Matrix3 n 0 k t'
           (lg ++ [Invoked 0 (UserCallback k) t']).
Proof.
  unfold tick, raiseOnTick, onlyPeriodicTick. simpl.
  destruct (c <? n); reflexivity.
Qed.

Lemma run_onlyPeriodicTick n k d : forall ts c t lg,
  c <= n ->
  log (runs (map Tick ts) (onlyPeriodicTick Matrix3 n c k t lg))
  = lg ++ map (fun j => Invoked 0 (UserCallback k)
                          (nth (j * (n + 1) + (n - c)) ts d))
            (seq 0 ((c + List.length ts) / (n + 1))).
Proof.
  induction ts as [|t' ts IH]; intros c t lg Hc.
  - simpl. rewrite Nat.add_0_r, Nat.div_small by lia. simpl.
    rewrite app_nil_r. reflexivity.
  - change (runs (map Tick (t' :: ts)) (onlyPeriodicTick Matrix3 n c k t lg))
      with (runs (map Tick ts) (frame t' (onlyPeriodicTick Matrix3 n c k t lg))).
    rewrite tick_onlyPeriodicTick.
    destruct (Nat.ltb_spec c n) as [Hlt|Hge].
    + rewrite IH by lia. f_equal.
      replace (c + 1 + List.length ts) with (c + List.length (t' :: ts))
        by (simpl; lia).
      apply map_ext. intros j.
      replace (j * (n + 1) + (n - c)) with (S (j * (n + 1) + (n - (c + 1))))
        by lia.
      reflexivity.
    + assert (c = n) by lia. subst c. rewrite IH by lia.
      rewrite <- app_assoc. f_equal.
      replace (n + List.length (t' :: ts))
        with (List.length ts + 1 * (n + 1)) by (simpl; lia).
      rewrite Nat.div_add by lia.
      replace (List.length ts / (n + 1) + 1)
        with (S (List.length ts / (n + 1))) by lia.
      rewrite <- cons_seq, <- seq_shift.
      rewrite Nat.sub_diag, Nat.sub_0_r, Nat.add_0_l. cbn [app map].
      rewrite map_map.
      f_equal. apply map_ext. intros j.
      replace (S j * (n + 1) + 0) with (S (j * (n + 1) + n)) by lia.
      reflexivity.
Qed.

(** C5: the code at any refresh rate [n] and any sequence of frames.  A
    callback registered alone on a fresh page is invoked with the time of
    the frame on frames n+1, 2(n+1), 3(n+1), ... and on no other: once
    every n+1 frames, the first time on frame n+1. *)
Theorem createPeriodicTickCallback_period n k t0 ts :
  log (runs (CreatePeriodicTickCallback n k :: map Tick ts)
         (initialWorld Matrix3 t0))
  = map (fun j => Invoked 0 (UserCallback k) (nth (j * (n + 1) + n) ts t0))
      (seq 0 (List.length ts / (n + 1))).
Proof.
  change (runs (CreatePeriodicTickCallback n k :: map Tick ts)
            (initialWorld Matrix3 t0))
    with (runs (map Tick ts) (onlyPeriodicTick Matrix3 n 0 k t0 [])).
  rewrite run_onlyPeriodicTick with (d := t0) by lia.
  rewrite Nat.sub_0_r. reflexivity.
Qed.

End Scheduler.

(** Rate 1 on six frames: the callback runs on frames 2, 4 and 6. *)
Example createPeriodicTickCallback_rate_1 :
  log (play (CreatePeriodicTickCallback 1 7
             :: map Tick (map secondsAfterEpoch [1; 2; 3; 4; 5; 6]%Z))
         (initialWorld Z epoch))
  = [Invoked 0 (UserCallback 7) (secondsAfterEpoch 2);
     Invoked 0 (UserCallback 7) (secondsAfterEpoch 4);
     Invoked 0 (UserCallback 7) (secondsAfterEpoch 6)].
Proof. reflexivity. Qed.

(** Two registrations count separately: rates 1 and 2 on six frames. *)
Example createPeriodicTickCallback_two_registrations :
  let w := play (CreatePeriodicTickCallback 1 7
                 :: CreatePeriodicTickCallback 2 8
                 :: map Tick (map secondsAfterEpoch [1; 2; 3; 4; 5; 6]%Z))
             (initialWorld Z epoch) in
  calls 0 w = [Invoked 0 (UserCallback 7) (secondsAfterEpoch 2);
               Invoked 0 (UserCallback 7) (secondsAfterEpoch 4);
               Invoked 0 (UserCallback 7) (secondsAfterEpoch 6)]
  /\ calls 1 w = [Invoked 1 (UserCallback 8) (secondsAfterEpoch 3);
                  Invoked 1 (UserCallback 8) (secondsAfterEpoch 6)].
Proof. vm_compute. split; reflexivity. Qed.

(** ** Frames: what running a listener leaves alone *)

Section Frames.

Variable Matrix3 : Type.
Variable computeIcrfToFixedMatrix : JulianDate.t -> option Matrix3.
Variable Primitive_update : CesiumPrimitive Matrix3 -> CesiumPrimitive Matrix3.

Implicit Types (w : World Matrix3) (h : nat) (hs : list nat).

Lemma calls_add_log h e w :
  calls h (add_log e w) = calls h w ++ (if madeBy h e then [e] else []).
Proof.
  unfold calls, add_log. simpl. rewrite filter_app. simpl.
  destruct (madeBy h e); reflexivity.
Qed.

Lemma madeBy_tag h e : madeBy h e = true <-> tag e = Some h.
Proof.
  unfold madeBy. destruct (tag e) as [h'|]; [|split; discriminate].
  rewrite Nat.eqb_eq. split; congruence.
Qed.

(** The seven parts of [tickFrame]. *)
Ltac frame_parts :=
  unfold tickFrame; split; [|split; [|split; [|split; [|split; [|split]]]]].

Lemma tickFrame_refl hs w : tickFrame hs w w.
Proof. frame_parts; auto. Qed.

Lemma tickFrame_trans hs w w1 w2 :
  tickFrame hs w w1 -> tickFrame hs w1 w2 -> tickFrame hs w w2.
Proof.
  intros (T1 & N1 & A1 & D1 & C1 & L1 & W1) (T2 & N2 & A2 & D2 & C2 & L2 & W2).
  frame_parts.
  - congruence.
  - lia.
  - intros h Hh Hlt. rewrite A2 by (auto; lia). apply A1; assumption.
  - intros h Hh Hlt. apply D2; [apply D1; assumption | lia].
  - congruence.
  - intros h Hh. rewrite L2 by assumption. apply L1; assumption.
  - intros H. apply W2, W1, H.
Qed.

Lemma tickFrame_incl hs hs' w w' :
  incl hs hs' -> tickFrame hs w w' -> tickFrame hs' w w'.
Proof.
  intros Hi (T1 & N1 & A1 & D1 & C1 & L1 & W1).
  frame_parts; auto.
Qed.

(** A change of fields other than the clock, the counter, the listener
    tables and the log. *)
Lemma tickFrame_plain hs w w' :
  clock_currentTime w' = clock_currentTime w ->
  nextId w' = nextId w ->
  clock_onTick w' = clock_onTick w ->
  trackedEntityChanged w' = trackedEntityChanged w ->
  log w' = log w ->
  tickFrame hs w w'.
Proof.
  intros Ht Hn Ho Hc Hl. unfold tickFrame, wfTicks, calls.
  rewrite Ht, Hn, Ho, Hc, Hl. frame_parts; auto.
Qed.

Lemma tf_set_entities hs l w : tickFrame hs w (set_entities l w).
Proof. apply tickFrame_plain; reflexivity. Qed.

Lemma tf_set_scene_primitives hs l w : tickFrame hs w (set_scene_primitives l w).
Proof. apply tickFrame_plain; reflexivity. Qed.

Lemma tf_set_geometries hs l w : tickFrame hs w (set_geometries l w).
Proof. apply tickFrame_plain; reflexivity. Qed.

Lemma tf_set_primitive hs o w : tickFrame hs w (set_primitive o w).
Proof. apply tickFrame_plain; reflexivity. Qed.

Lemma tf_set_primitivePendingUpdate hs b w :
  tickFrame hs w (set_primitivePendingUpdate b w).
Proof. apply tickFrame_plain; reflexivity. Qed.

Lemma tf_set_primitivePendingCreation hs b w :
  tickFrame hs w (set_primitivePendingCreation b w).
Proof. apply tickFrame_plain; reflexivity. Qed.

Lemma tf_set_heap hs hp w : tickFrame hs w (set_heap hp w).
Proof. apply tickFrame_plain; reflexivity. Qed.

Lemma tf_store hs p obj w : tickFrame hs w (store p obj w).
Proof. apply tickFrame_plain; reflexivity. Qed.

Lemma tf_set_nextId hs n w : nextId w <= n -> tickFrame hs w (set_nextId n w).
Proof.
  intros Hn. frame_parts; auto.
  intros [Hnd Hb]. split; [exact Hnd|].
  intros h Hh. specialize (Hb h Hh). simpl. lia.
Qed.

Lemma tf_add_log hs e w :
  (forall h, tag e = Some h -> In h hs) -> tickFrame hs w (add_log e w).
Proof.
  intros He. frame_parts; auto.
  intros h Hh. rewrite calls_add_log.
  destruct (madeBy h e) eqn:E; [|apply app_nil_r].
  apply madeBy_tag in E. exfalso. apply Hh, He, E.
Qed.

Lemma tf_addTickListener hs l w : tickFrame hs w (snd (addTickListener l w)).
Proof.
  frame_parts; simpl; auto.
  - intros h _ Hlt. rewrite lookup_add.
    destruct (Event.lookup h (clock_onTick w)); [reflexivity|].
    destruct (Nat.eqb_spec (nextId w) h); [lia|reflexivity].
  - intros h Hn Hlt. rewrite lookup_add, Hn.
    destruct (Nat.eqb_spec (nextId w) h); [lia|reflexivity].
  - intros [Hnd Hb]. unfold wfTicks. simpl. rewrite handles_add. split.
    + apply NoDup_app; [exact Hnd | repeat constructor; intros [] | ].
      intros x Hx [<-|[]]. apply Hb in Hx. lia.
    + intros h Hh.
      apply in_app_or in Hh as [Hh|[<-|[]]]; [apply Hb in Hh|]; lia.
Qed.

Lemma tf_removeTickListener hs h' w :
  In h' hs -> tickFrame hs w (removeTickListener h' w).
Proof.
  intros Hin. frame_parts; simpl; auto.
  - intros h Hh _. rewrite lookup_remove.
    destruct (Nat.eqb_spec h' h) as [->|_]; [contradiction|reflexivity].
  - intros h Hn _. rewrite lookup_remove, Hn.
    destruct (Nat.eqb h' h); reflexivity.
  - intros [Hnd Hb]. unfold wfTicks. simpl. rewrite handles_remove. split.
    + apply NoDup_filter, Hnd.
    + intros h Hh. apply filter_In in Hh as [Hh _]. apply Hb, Hh.
Qed.

Lemma tf_updateTickListener hs h' l w :
  In h' hs -> tickFrame hs w (updateTickListener h' l w).
Proof.
  intros Hin. frame_parts; simpl; auto.
  - intros h Hh _. rewrite lookup_update.
    destruct (Nat.eqb_spec h' h) as [->|_]; [contradiction|reflexivity].
  - intros h Hn _. rewrite lookup_update, Hn.
    destruct (Nat.eqb h' h); reflexivity.
  - unfold wfTicks. simpl. rewrite handles_update. auto.
Qed.

(** Peels the outermost field update off the world on the right. *)
Ltac frame_step :=
  eapply tickFrame_trans;
  [ | first
        [ apply tf_addTickListener
        | apply tf_removeTickListener; simpl; tauto
        | apply tf_updateTickListener; simpl; tauto
        | apply tf_store
        | apply tf_set_entities | apply tf_set_scene_primitives
        | apply tf_set_geometries | apply tf_set_primitive
        | apply tf_set_primitivePendingUpdate
        | apply tf_set_primitivePendingCreation
        | apply tf_set_heap
        | apply tf_set_nextId; simpl; lia
        | apply tf_add_log; simpl; intros ? [= <-]; simpl; tauto
        | apply tf_add_log; simpl; discriminate ] ].

Ltac frame := repeat frame_step; try apply tickFrame_refl.

Lemma tf_recreateCallback hs h' w :
  In h' hs -> tickFrame hs w (recreateCallback h' w).
Proof.
  intros Hin. unfold recreateCallback.
  destruct (primitivePendingCreation w); [apply tickFrame_refl|].
  cbv zeta.
  destruct (geometries (set_primitivePendingUpdate false w)).
  - destruct (primitive (set_primitivePendingUpdate false w)); frame.
  - frame.
Qed.

Lemma tf_readyListener hs h' p lastState w :
  In h' hs ->
  tickFrame hs w
    (readyListener computeIcrfToFixedMatrix Primitive_update h' p lastState w).
Proof.
  intros Hin. unfold readyListener.
  destruct (deref p w) as [obj|]; [|apply tickFrame_refl].
  destruct (negb (ready obj)).
  - destruct (negb (_state obj =? lastState)%Z); frame.
  - cbv zeta.
    destruct (computeIcrfToFixedMatrix (clock_currentTime w));
      match goal with
      | |- context [match primitive ?x with _ => _ end] =>
          destruct (primitive x)
      end; frame.
Qed.

Lemma tf_invoke hs h' callback time w :
  In h' hs -> tickFrame hs w (invoke h' callback time w).
Proof.
  intros Hin. unfold invoke. destruct callback.
  - eapply tickFrame_trans; [|apply tf_recreateCallback, Hin]. frame.
  - frame.
Qed.

Lemma tf_runTickListener hs h' l w :
  In h' hs ->
  tickFrame hs w
    (runTickListener computeIcrfToFixedMatrix Primitive_update h' l w).
Proof.
  intros Hin. unfold runTickListener. destruct l as [n c cb|s last cb|p ls|k].
  - destruct (c <? n); [frame|].
    eapply tickFrame_trans; [apply tf_invoke, Hin|]. frame.
  - cbv zeta.
    destruct (Z.abs (JulianDate.secondsDifference (clock_currentTime w) last)
              <? s)%Z; [apply tickFrame_refl|].
    eapply tickFrame_trans; [apply tf_invoke, Hin|]. frame.
  - apply tf_readyListener, Hin.
  - frame.
Qed.

Lemma tf_recreateGeometryInstancePrimitive hs w :
  tickFrame hs w (recreateGeometryInstancePrimitive w).
Proof.
  unfold recreateGeometryInstancePrimitive, createPeriodicTickCallback.
  destruct (primitivePendingUpdate w); frame.
Qed.

Lemma tf_enableInWorld hs component w :
  tickFrame hs w (enableInWorld component w).
Proof.
  unfold enableInWorld. destruct component as [e|p|g|o].
  - destruct (negb (contains e (entities w))); frame.
  - destruct (negb (contains p (scene_primitives w))); frame.
  - eapply tickFrame_trans; [|apply tf_recreateGeometryInstancePrimitive]. frame.
  - apply tickFrame_refl.
Qed.

Lemma tf_disableInWorld hs component w :
  tickFrame hs w (disableInWorld component w).
Proof.
  unfold disableInWorld. destruct component as [e|p|g|o]; try solve [frame].
  eapply tickFrame_trans; [|apply tf_recreateGeometryInstancePrimitive]. frame.
Qed.

Lemma tf_hostProgress hs p state isReady w :
  tickFrame hs w (hostProgress p state isReady w).
Proof. unfold hostProgress. destruct (deref p w); frame. Qed.

Lemma tf_cancel h' w : tickFrame [h'] w (cancel h' w).
Proof.
  unfold cancel.
  destruct (Event.lookup h' (clock_onTick w)) as [[n c [|k]|s last [|k]|p ls|k]|];
    frame.
Qed.

(** *** A whole pass over the per-tick listeners *)

Lemma tf_fold hs : forall w,
  tickFrame hs w
    (fold_left
       (fun w h => match Event.lookup h (clock_onTick w) with
                   | Some l => runTickListener computeIcrfToFixedMatrix
                                 Primitive_update h l w
                   | None => w
                   end) hs w).
Proof.
  induction hs as [|h' hs IH]; intros w; [apply tickFrame_refl|].
  simpl. eapply tickFrame_trans.
  - instantiate (1 := match Event.lookup h' (clock_onTick w) with
                      | Some l => runTickListener computeIcrfToFixedMatrix
                                    Primitive_update h' l w
                      | None => w
                      end).
    destruct (Event.lookup h' (clock_onTick w));
      [apply tf_runTickListener; now left | apply tickFrame_refl].
  - eapply tickFrame_incl; [|apply IH]. intros x Hx. now right.
Qed.

Lemma tf_raiseOnTick w :
  tickFrame (Event.handles (clock_onTick w)) w
    (raiseOnTick computeIcrfToFixedMatrix Primitive_update w).
Proof. apply tf_fold. Qed.

(** A registered [OnTickListener] is still registered, unchanged, after
    any pass over the per-tick listeners: it never removes itself. *)
Lemma onTickListener_persists h a hs : forall w,
  h < nextId w ->
  Event.lookup h (clock_onTick w) = Some (OnTickListener a) ->
  Event.lookup h
    (clock_onTick
       (fold_left
          (fun w h => match Event.lookup h (clock_onTick w) with
                      | Some l => runTickListener computeIcrfToFixedMatrix
                                    Primitive_update h l w
                      | None => w
                      end) hs w))
  = Some (OnTickListener a).
Proof.
  induction hs as [|h' hs IH]; intros w Hlt Hh; [exact Hh|].
  simpl. destruct (Event.lookup h' (clock_onTick w)) as [l|] eqn:El.
  - destruct (Nat.eq_dec h' h) as [->|Hne].
    + assert (l = OnTickListener a) by congruence. subst l. simpl.
      apply IH; [exact Hlt|exact Hh].
    + destruct (@tf_runTickListener [h'] h' l w (or_introl eq_refl))
        as (_ & N & A & _).
      apply IH; [lia|]. rewrite A; [exact Hh| |exact Hlt].
      intros [E|[]]. congruence.
  - apply IH; assumption.
Qed.

(** *** The change listeners *)

Ltac change_parts :=
  unfold changeFrame; split; [|split; [|split; [|split; [|split]]]].

Lemma changeFrame_refl hs w : changeFrame hs w w.
Proof. change_parts; auto. Qed.

Lemma changeFrame_trans hs w w1 w2 :
  changeFrame hs w w1 -> changeFrame hs w1 w2 -> changeFrame hs w w2.
Proof.
  intros (N1 & D1 & A1 & E1 & L1 & W1) (N2 & D2 & A2 & E2 & L2 & W2).
  change_parts.
  - congruence.
  - intros h Hh. apply D2, D1, Hh.
  - intros h Hh. rewrite A2 by assumption. apply A1, Hh.
  - intros h Hh. apply E2, E1, Hh.
  - intros h Hh. rewrite L2 by assumption. apply L1, Hh.
  - intros H. apply W2, W1, H.
Qed.

Lemma changeFrame_incl hs hs' w w' :
  incl hs hs' -> changeFrame hs w w' -> changeFrame hs' w w'.
Proof.
  intros Hi (N1 & D1 & A1 & E1 & L1 & W1). change_parts; auto.
Qed.

Lemma cf_runChangeListener hs h' l w :
  In h' hs -> changeFrame hs w (runChangeListener h' l w).
Proof.
  intros Hin. destruct l as [hT k]. unfold runChangeListener.
  change_parts; simpl.
  - reflexivity.
  - intros h Hh. rewrite lookup_remove, Hh. destruct (Nat.eqb hT h); reflexivity.
  - intros h Hh. rewrite lookup_remove.
    destruct (Nat.eqb_spec h' h) as [->|_]; [contradiction|reflexivity].
  - intros h Hh. rewrite lookup_remove, Hh. destruct (Nat.eqb h' h); reflexivity.
  - intros h Hh. rewrite calls_add_log. unfold madeBy. simpl.
    destruct (Nat.eqb_spec h' h) as [->|_]; [contradiction|apply app_nil_r].
  - intros [Hnd Hb]. unfold wfTicks. simpl. rewrite handles_remove. split.
    + apply NoDup_filter, Hnd.
    + intros h Hh. apply filter_In in Hh as [Hh _]. apply Hb, Hh.
Qed.

Lemma cf_fold hs : forall w,
  changeFrame hs w
    (fold_left
       (fun w h => match Event.lookup h (trackedEntityChanged w) with
                   | Some l => runChangeListener h l w
                   | None => w
                   end) hs w).
Proof.
  induction hs as [|h' hs IH]; intros w; [apply changeFrame_refl|].
  simpl. eapply changeFrame_trans.
  - instantiate (1 := match Event.lookup h' (trackedEntityChanged w) with
                      | Some l => runChangeListener h' l w
                      | None => w
                      end).
    destruct (Event.lookup h' (trackedEntityChanged w));
      [apply cf_runChangeListener; now left | apply changeFrame_refl].
  - eapply changeFrame_incl; [|apply IH]. intros x Hx. now right.
Qed.

Lemma cf_raiseTrackedEntityChanged w :
  changeFrame (Event.handles (trackedEntityChanged w)) w
    (raiseTrackedEntityChanged w).
Proof. apply cf_fold. Qed.

(** A change listener that is no longer registered is not run again. *)
Lemma change_fold_retired h hs : forall w,
  Event.lookup h (trackedEntityChanged w) = None ->
  calls h
    (fold_left
       (fun w h => match Event.lookup h (trackedEntityChanged w) with
                   | Some l => runChangeListener h l w
                   | None => w
                   end) hs w)
  = calls h w.
Proof.
  induction hs as [|h' hs IH]; intros w Hh; [reflexivity|].
  simpl. destruct (Event.lookup h' (trackedEntityChanged w)) as [l|] eqn:El.
  - assert (Hne : ~ In h [h']) by (intros [E|[]]; congruence).
    destruct (@cf_runChangeListener [h'] h' l w (or_introl eq_refl))
      as (_ & _ & _ & E & L & _).
    rewrite IH by (apply E, Hh). apply L, Hne.
  - apply IH, Hh.
Qed.

(** The pass in which the change listener [hC] of a registration runs. *)
Lemma change_fold_runs hT hC b hs : forall w,
  Event.lookup hC (trackedEntityChanged w) = Some (UntrackListener hT b) ->
  In hC hs ->
  let w' := fold_left
              (fun w h => match Event.lookup h (trackedEntityChanged w) with
                          | Some l => runChangeListener h l w
                          | None => w
                          end) hs w in
  Event.lookup hC (trackedEntityChanged w') = None
  /\ Event.lookup hT (clock_onTick w') = None
  /\ calls hC w' = calls hC w ++ [OnUntrackCalled hC b].
Proof.
  induction hs as [|h' hs IH]; intros w Hc Hin; [destruct Hin|].
  simpl. destruct (Nat.eq_dec h' hC) as [->|Hne].
  - rewrite Hc.
    set (w1 := runChangeListener hC (UntrackListener hT b) w).
    assert (H1 : Event.lookup hC (trackedEntityChanged w1) = None).
    { unfold w1. simpl. rewrite lookup_remove, Nat.eqb_refl. reflexivity. }
    assert (H2 : Event.lookup hT (clock_onTick w1) = None).
    { unfold w1. simpl. rewrite lookup_remove, Nat.eqb_refl. reflexivity. }
    assert (H3 : calls hC w1 = calls hC w ++ [OnUntrackCalled hC b]).
    { unfold w1, runChangeListener. rewrite calls_add_log.
      unfold madeBy. simpl. rewrite Nat.eqb_refl. reflexivity. }
    destruct (cf_fold hs w1) as (_ & D & _ & E & _).
    repeat split; [apply E, H1 | apply D, H2 |].
    rewrite change_fold_retired by exact H1. exact H3.
  - destruct Hin as [E|Hin]; [congruence|].
    destruct (Event.lookup h' (trackedEntityChanged w)) as [l|] eqn:El.
    + assert (Hni : ~ In hC [h']) by (intros [E|[]]; congruence).
      destruct (@cf_runChangeListener [h'] h' l w (or_introl eq_refl))
        as (_ & _ & A & _ & L & _).
      destruct (IH (runChangeListener h' l w)) as (R1 & R2 & R3);
        [rewrite A by exact Hni; exact Hc | exact Hin |].
      repeat split; [exact R1 | exact R2 |].
      rewrite R3, L by exact Hni. reflexivity.
    + apply IH; assumption.
Qed.

(** *** One input *)

Local Abbreviation step' := (step computeIcrfToFixedMatrix Primitive_update).
Local Abbreviation run' := (run computeIcrfToFixedMatrix Primitive_update).

Lemma cancel_unregistered h w :
  Event.lookup h (clock_onTick w) = None -> cancel h w = w.
Proof. intros H. unfold cancel. rewrite H. reflexivity. Qed.

Lemma lookup_unallocated w h :
  wfTicks w -> nextId w <= h -> Event.lookup h (clock_onTick w) = None.
Proof.
  intros [_ Hb] Hh. apply lookup_None. intros Hin. apply Hb in Hin. lia.
Qed.

(** A handle that is registered on neither event stays so, and no call is
    made on its behalf any more. *)
Lemma step_retired i w h :
  h < nextId w ->
  Event.lookup h (clock_onTick w) = None ->
  Event.lookup h (trackedEntityChanged w) = None ->
  h < nextId (step' i w)
  /\ Event.lookup h (clock_onTick (step' i w)) = None
  /\ Event.lookup h (trackedEntityChanged (step' i w)) = None
  /\ calls h (step' i w) = calls h w.
Proof.
  intros Hlt Ht Hc.
  assert (by_frame : forall hs w', tickFrame hs w w' -> ~ In h hs ->
            h < nextId w'
            /\ Event.lookup h (clock_onTick w') = None
            /\ Event.lookup h (trackedEntityChanged w') = None
            /\ calls h w' = calls h w).
  { intros hs w' (_ & N & _ & D & C & L & _) Hn.
    repeat split; [lia | apply D; assumption | congruence | apply L, Hn]. }
  destruct i as [t| |c|c|p st r|a b|n k|s k|h']; unfold step.
  - destruct (tf_raiseOnTick (set_currentTime t w)) as (_ & N & _ & D & C & L & _).
    unfold tick. repeat split.
    + simpl in N. lia.
    + apply D; assumption.
    + rewrite C. exact Hc.
    + rewrite L; [reflexivity|]. apply lookup_None. exact Ht.
  - destruct (cf_raiseTrackedEntityChanged w) as (N & D & _ & E & L & _).
    repeat split.
    + lia.
    + apply D, Ht.
    + apply E, Hc.
    + apply L. apply lookup_None. exact Hc.
  - apply (by_frame []); [apply tf_enableInWorld | intros []].
  - apply (by_frame []); [apply tf_disableInWorld | intros []].
  - apply (by_frame []); [apply tf_hostProgress | intros []].
  - simpl. repeat split.
    + lia.
    + rewrite lookup_add, Ht. destruct (Nat.eqb_spec (nextId w) h); [lia|reflexivity].
    + rewrite lookup_add, Hc.
      destruct (Nat.eqb_spec (S (nextId w)) h); [lia|reflexivity].
  - apply (by_frame []); [apply tf_addTickListener | intros []].
  - apply (by_frame []); [apply tf_addTickListener | intros []].
  - destruct (Nat.eq_dec h' h) as [->|Hne].
    + rewrite cancel_unregistered by exact Ht. auto.
    + apply (by_frame [h']); [apply tf_cancel|]. intros [E|[]]. congruence.
Qed.

Lemma step_wellFormed i w : wellFormed w -> wellFormed (step' i w).
Proof.
  intros (Wt & Wc & Wl).
  assert (by_frame : forall hs w', tickFrame hs w w' ->
            (forall h, In h hs -> h < nextId w) -> wellFormed w').
  { intros hs w' (_ & N & _ & _ & C & L & W) Hhs. repeat split.
    - apply W, Wt.
    - apply W, Wt.
    - intros h Hh. rewrite C. apply Wc. lia.
    - intros h Hh. rewrite L; [apply Wl; lia|].
      intros Hin. apply Hhs in Hin. lia. }
  destruct i as [t| |c|c|p st r|a b|n k|s k|h']; unfold step.
  - unfold tick.
    destruct (tf_raiseOnTick (set_currentTime t w)) as (_ & N & _ & _ & C & L & W).
    simpl in N. repeat split.
    + apply W, Wt.
    + apply W, Wt.
    + intros h Hh. rewrite C. apply Wc. lia.
    + intros h Hh. rewrite L; [apply Wl; lia|].
      intros Hin. apply Wt in Hin. lia.
  - destruct (cf_raiseTrackedEntityChanged w) as (N & _ & _ & E & L & W).
    repeat split.
    + apply W, Wt.
    + apply W, Wt.
    + intros h Hh. apply E, Wc. lia.
    + intros h Hh. rewrite L; [apply Wl; lia|].
      apply lookup_None, Wc. lia.
  - apply (by_frame []); [apply tf_enableInWorld | intros ? []].
  - apply (by_frame []); [apply tf_disableInWorld | intros ? []].
  - apply (by_frame []); [apply tf_hostProgress | intros ? []].
  - destruct (tf_addTickListener [] (OnTickListener a) w)
      as (_ & _ & _ & _ & _ & _ & W).
    destruct (W Wt) as [Hnd Hb]. repeat split.
    + exact Hnd.
    + intros h Hh. apply Hb in Hh. simpl in *. lia.
    + intros h Hh. simpl in *. rewrite lookup_add, Wc by lia.
      destruct (Nat.eqb_spec (S (nextId w)) h); [lia|reflexivity].
    + intros h Hh. simpl in *. apply Wl. lia.
  - apply (by_frame []); [apply tf_addTickListener | intros ? []].
  - apply (by_frame []); [apply tf_addTickListener | intros ? []].
  - destruct (Event.lookup h' (clock_onTick w)) as [l|] eqn:El.
    + apply (by_frame [h']); [apply tf_cancel|].
      intros h [<-|[]]. apply Wt. eapply lookup_Some_In, El.
    + rewrite cancel_unregistered by exact El.
      split; [exact Wt | split; assumption].
Qed.

Lemma initialWorld_wellFormed t0 : wellFormed (initialWorld Matrix3 t0).
Proof.
  repeat split; try reflexivity.
  - constructor.
  - intros h [].
Qed.

Lemma run_wellFormed inputs : forall w, wellFormed w -> wellFormed (run' inputs w).
Proof.
  induction inputs as [|i inputs IH]; intros w Hw; [exact Hw|].
  simpl. apply IH, step_wellFormed, Hw.
Qed.

(** *** setTrackedOnTickCallback *)

Lemma setTrackedOnTickCallback_tracking a b w :
  wellFormed w ->
  tracking (nextId w) (S (nextId w)) a b
    (snd (setTrackedOnTickCallback a b w)).
Proof.
  intros (Wt & Wc & Wl). unfold tracking. simpl.
  assert (T0 := lookup_unallocated Wt (Nat.le_refl _)).
  assert (T1 := lookup_unallocated Wt (Nat.le_succ_diag_r _)).
  repeat split.
  - lia.
  - lia.
  - rewrite lookup_add, T0, Nat.eqb_refl. reflexivity.
  - rewrite lookup_add, Wc, Nat.eqb_refl by lia. reflexivity.
  - rewrite lookup_add, T1.
    destruct (Nat.eqb_spec (nextId w) (S (nextId w))); [lia|reflexivity].
  - rewrite lookup_add, Wc by lia.
    destruct (Nat.eqb_spec (S (nextId w)) (nextId w)); [lia|reflexivity].
  - apply Wl. lia.
Qed.

Lemma step_tracking hT hC a b i w :
  i <> TrackedEntityChanged ->
  tracking hT hC a b w -> tracking hT hC a b (step' i w).
Proof.
  intros Hi (LT & LC & HT & HC & CT & TC & Hcalls).
  assert (by_frame : forall hs w', tickFrame hs w w' ->
            ~ In hT hs -> ~ In hC hs -> tracking hT hC a b w').
  { intros hs w' (_ & N & A & D & C & L & _) HnT HnC. unfold tracking.
    repeat split; try lia.
    - rewrite A; assumption.
    - rewrite C; exact HC.
    - apply D; assumption.
    - rewrite C; exact TC.
    - rewrite L; assumption. }
  destruct i as [t| |c|c|p st r|a' b'|n k|s k|h']; unfold step.
  - unfold tick.
    destruct (tf_raiseOnTick (set_currentTime t w)) as (_ & N & _ & D & C & L & _).
    simpl in N. unfold tracking. repeat split; try lia.
    + apply onTickListener_persists; assumption.
    + rewrite C. exact HC.
    + apply D; assumption.
    + rewrite C. exact TC.
    + rewrite L; [exact Hcalls|]. apply lookup_None. exact CT.
  - congruence.
  - apply (by_frame []); [apply tf_enableInWorld | intros [] | intros []].
  - apply (by_frame []); [apply tf_disableInWorld | intros [] | intros []].
  - apply (by_frame []); [apply tf_hostProgress | intros [] | intros []].
  - unfold tracking. simpl. repeat split; try lia.
    + rewrite lookup_add, HT. reflexivity.
    + rewrite lookup_add, HC. reflexivity.
    + rewrite lookup_add, CT.
      destruct (Nat.eqb_spec (nextId w) hC); [lia|reflexivity].
    + rewrite lookup_add, TC.
      destruct (Nat.eqb_spec (S (nextId w)) hT); [lia|reflexivity].
    + exact Hcalls.
  - apply (by_frame []); [apply tf_addTickListener | intros [] | intros []].
  - apply (by_frame []); [apply tf_addTickListener | intros [] | intros []].
  - destruct (Nat.eq_dec h' hT) as [->|HneT].
    + unfold cancel. rewrite HT. unfold tracking. repeat split; assumption.
    + destruct (Nat.eq_dec h' hC) as [->|HneC].
      * rewrite cancel_unregistered by exact CT.
        unfold tracking. repeat split; assumption.
      * apply (by_frame [h']); [apply tf_cancel | |]; intros [E|[]]; congruence.
Qed.

Lemma change_untracks hT hC a b w :
  tracking hT hC a b w ->
  untracked hT hC b (raiseTrackedEntityChanged w).
Proof.
  intros (LT & LC & HT & HC & CT & TC & Hcalls).
  destruct (cf_raiseTrackedEntityChanged w) as (N & D & _ & E & _ & _).
  destruct (@change_fold_runs hT hC b (Event.handles (trackedEntityChanged w))
              w HC (lookup_Some_In _ _ HC)) as (R1 & R2 & R3).
  unfold untracked. repeat split; try lia.
  - exact R2.
  - exact R1.
  - apply D, CT.
  - apply E, TC.
  - unfold raiseTrackedEntityChanged. rewrite R3, Hcalls. reflexivity.
Qed.

Lemma step_untracked hT hC b i w :
  untracked hT hC b w ->
  untracked hT hC b (step' i w) /\ calls hT (step' i w) = calls hT w.
Proof.
  intros (LT & LC & HT & HC & CT & TC & Hcalls).
  destruct (step_retired i w LT HT TC) as (T1 & T2 & T3 & T4).
  destruct (step_retired i w LC CT HC) as (C1 & C2 & C3 & C4).
  unfold untracked. repeat split; try assumption. congruence.
Qed.

Lemma run_untracked hT hC b inputs : forall w,
  untracked hT hC b w ->
  untracked hT hC b (run' inputs w) /\ calls hT (run' inputs w) = calls hT w.
Proof.
  induction inputs as [|i inputs IH]; intros w Hw; [split; [exact Hw|reflexivity]|].
  simpl. destruct (step_untracked i Hw) as [Hu Hc].
  destruct (IH _ Hu) as [Hu' Hc']. split; [exact Hu'|congruence].
Qed.

Lemma Input_is_change (i : Input) :
  {i = TrackedEntityChanged} + {i <> TrackedEntityChanged}.
Proof. destruct i; (now left) || (right; discriminate). Qed.

(** While the tracked entity does not change, the registration stands. *)
Lemma tracking_until_change hT hC a b pre : forall w,
  ~ In TrackedEntityChanged pre ->
  tracking hT hC a b w -> tracking hT hC a b (run' pre w).
Proof.
  induction pre as [|i pre IH]; intros w Hpre Hw; [exact Hw|].
  simpl. apply IH.
  - intros H. apply Hpre. now right.
  - apply step_tracking; [|exact Hw]. intros ->. apply Hpre. now left.
Qed.

Lemma run_change_untracks hT hC a b pre : forall w,
  tracking hT hC a b w ->
  untracked hT hC b (run' (pre ++ [TrackedEntityChanged]) w).
Proof.
  induction pre as [|i pre IH]; intros w Hw.
  - simpl. eapply change_untracks, Hw.
  - simpl. destruct (Input_is_change i) as [->|Hi].
    + apply run_untracked. eapply change_untracks, Hw.
    + apply IH, step_tracking; assumption.
Qed.

(** C8: setTrackedOnTickCallback, registered at any point of any run of
    the page.  Once the tracked entity has changed, whatever came before
    and whatever comes after: onUntrack has been called exactly once in
    all, neither listener is registered any more, and no onTick call of
    the registration is made after the change. *)
Theorem setTrackedOnTickCallback_untracks_once t0 inputs a b pre post :
  let w0 := run' inputs (initialWorld Matrix3 t0) in
  let hT := fst (fst (setTrackedOnTickCallback a b w0)) in
  let hC := snd (fst (setTrackedOnTickCallback a b w0)) in
  let w1 := snd (setTrackedOnTickCallback a b w0) in
  let w2 := run' (pre ++ [TrackedEntityChanged]) w1 in
  let w3 := run' post w2 in
  calls hC w2 = [OnUntrackCalled hC b]
  /\ calls hC w3 = [OnUntrackCalled hC b]
  /\ Event.lookup hT (clock_onTick w3) = None
  /\ Event.lookup hC (trackedEntityChanged w3) = None
  /\ calls hT w3 = calls hT w2.
Proof.
  intros w0 hT hC w1 w2 w3.
  assert (W0 : wellFormed w0) by apply run_wellFormed, initialWorld_wellFormed.
  assert (T1 : tracking hT hC a b w1)
    by apply setTrackedOnTickCallback_tracking, W0.
  assert (U2 : untracked hT hC b w2) by apply (run_change_untracks pre T1).
  destruct (run_untracked post U2) as [U3 C3].
  destruct U2 as (_ & _ & _ & _ & _ & _ & E2).
  destruct U3 as (_ & _ & HT & HC & _ & _ & E3).
  repeat split; assumption.
Qed.

(** *** createPeriodicTimeCallback *)

(** Whether a periodic time callback with threshold [s] and reference
    timestamp [last] is due at time [t]. *)
Lemma due_spec s t last :
  (Z.abs (JulianDate.secondsDifference t last) <? s)%Z
  = negb (s <=? Z.abs (JulianDate.secondsDifference t last))%Z.
Proof.
  destruct (Z.ltb_spec (Z.abs (JulianDate.secondsDifference t last)) s);
    destruct (Z.leb_spec s (Z.abs (JulianDate.secondsDifference t last)));
    simpl; lia || reflexivity.
Qed.

Lemma periodicTime_run h s last k w :
  Event.lookup h (clock_onTick w) = Some (PeriodicTime s last (UserCallback k)) ->
  let t := clock_currentTime w in
  let fired := (s <=? Z.abs (JulianDate.secondsDifference t last))%Z in
  let w' := runTickListener computeIcrfToFixedMatrix Primitive_update h
              (PeriodicTime s last (UserCallback k)) w in
  calls h w' = calls h w ++ (if fired then [Invoked h (UserCallback k) t] else [])
  /\ Event.lookup h (clock_onTick w')
     = Some (PeriodicTime s (if fired then t else last) (UserCallback k)).
Proof.
  intros Hh t fired w'. unfold w', runTickListener. cbv zeta.
  rewrite due_spec. fold t. fold fired. destruct fired; simpl.
  - split.
    + unfold calls. simpl. rewrite filter_app. simpl. unfold madeBy. simpl.
      rewrite Nat.eqb_refl. reflexivity.
    + rewrite lookup_update, Nat.eqb_refl, Hh. reflexivity.
  - split; [symmetry; apply app_nil_r | exact Hh].
Qed.

Lemma periodicTime_fold h s last k hs : forall w,
  NoDup hs -> In h hs -> h < nextId w ->
  Event.lookup h (clock_onTick w) = Some (PeriodicTime s last (UserCallback k)) ->
  let t := clock_currentTime w in
  let fired := (s <=? Z.abs (JulianDate.secondsDifference t last))%Z in
  let w' := fold_left
              (fun w h => match Event.lookup h (clock_onTick w) with
                          | Some l => runTickListener computeIcrfToFixedMatrix
                                        Primitive_update h l w
                          | None => w
                          end) hs w in
  calls h w' = calls h w ++ (if fired then [Invoked h (UserCallback k) t] else [])
  /\ Event.lookup h (clock_onTick w')
     = Some (PeriodicTime s (if fired then t else last) (UserCallback k)).
Proof.
  induction hs as [|h' hs IH]; intros w Hnd Hin Hlt Hh; [destruct Hin|].
  inversion Hnd as [|? ? Hnotin Hnd']; subst.
  simpl. destruct (Nat.eq_dec h' h) as [->|Hne].
  - rewrite Hh. pose proof (@periodicTime_run h s last k w Hh) as R. cbv zeta in R.
    destruct R as [R1 R2].
    set (w1 := runTickListener computeIcrfToFixedMatrix Primitive_update h
                 (PeriodicTime s last (UserCallback k)) w) in *.
    destruct (@tf_runTickListener [h] h (PeriodicTime s last (UserCallback k))
                w (or_introl eq_refl)) as (_ & N1 & _).
    fold w1 in N1.
    destruct (tf_fold hs w1) as (_ & _ & A & _ & _ & L & _).
    rewrite L, A by (assumption || lia). split; assumption.
  - destruct Hin as [E|Hin]; [congruence|].
    destruct (Event.lookup h' (clock_onTick w)) as [l|] eqn:El.
    + assert (Hni : ~ In h [h']) by (intros [E|[]]; congruence).
      destruct (@tf_runTickListener [h'] h' l w (or_introl eq_refl))
        as (T & N & A & _ & _ & L & _).
      destruct (IH (runTickListener computeIcrfToFixedMatrix
                      Primitive_update h' l w)) as [R1 R2];
        [exact Hnd' | exact Hin | lia | rewrite A; assumption |].
      rewrite T, L in R1 by exact Hni. rewrite T in R2. split; assumption.
    + apply IH; assumption.
Qed.

(** C7: createPeriodicTimeCallback, for a callback registered at any point
    of any run of the page.  On a frame at time [t] the callback is invoked
    exactly when [|t - lastUpdated| >= s]; it is then invoked once, with
    [t], and [lastUpdated] becomes [t]; otherwise nothing is invoked and
    [lastUpdated] stays. *)
Theorem createPeriodicTimeCallback_fires t0 inputs h s last k t :
  let w := run' inputs (initialWorld Matrix3 t0) in
  Event.lookup h (clock_onTick w) = Some (PeriodicTime s last (UserCallback k)) ->
  let fired := (s <=? Z.abs (JulianDate.secondsDifference t last))%Z in
  let w' := tick computeIcrfToFixedMatrix Primitive_update t w in
  calls h w' = calls h w ++ (if fired then [Invoked h (UserCallback k) t] else [])
  /\ Event.lookup h (clock_onTick w')
     = Some (PeriodicTime s (if fired then t else last) (UserCallback k)).
Proof.
  intros w Hh fired w'.
  assert (W : wellFormed w) by apply run_wellFormed, initialWorld_wellFormed.
  destruct W as ([Hnd Hb] & _).
  apply (@periodicTime_fold h s last k (Event.handles (clock_onTick w))
           (set_currentTime t w)).
  - exact Hnd.
  - eapply lookup_Some_In, Hh.
  - apply Hb. eapply lookup_Some_In, Hh.
  - exact Hh.
Qed.

(** The registration itself: the reference timestamp starts at the time
    of registration. *)
Lemma createPeriodicTimeCallback_registers s k w :
  wellFormed w ->
  Event.lookup (fst (createPeriodicTimeCallback s (UserCallback k) w))
    (clock_onTick (snd (createPeriodicTimeCallback s (UserCallback k) w)))
  = Some (PeriodicTime s (clock_currentTime w) (UserCallback k)).
Proof.
  intros (Wt & _). simpl.
  rewrite lookup_add, (lookup_unallocated Wt (Nat.le_refl _)), Nat.eqb_refl.
  reflexivity.
Qed.

End Frames.

(** ** Counting listeners *)

Section Counting.

Variable L : Type.
Variable f : L -> bool.

Implicit Types (ev : Event.t L) (h : nat).







End Counting.

(** ** At most one rebuild in flight *)

Section SingleFlight.

Variable Matrix3 : Type.
Variable computeIcrfToFixedMatrix : JulianDate.t -> option Matrix3.
Variable Primitive_update : CesiumPrimitive Matrix3 -> CesiumPrimitive Matrix3.

Implicit Types (w : World Matrix3) (h : nat).

Local Abbreviation inFlight := (Event.count isReadyListener).














End SingleFlight.

Lemma createPeriodicTimeCallback_fires_witness :
  let w := play [CreatePeriodicTimeCallback 10 7; Tick (secondsAfterEpoch 4)]
             (initialWorld Z epoch) in
  let w' := tick alwaysDefined stepping (secondsAfterEpoch 25) w in
  calls 0 w' = calls 0 w ++ [Invoked 0 (UserCallback 7) (secondsAfterEpoch 25)]
  /\ Event.lookup 0 (clock_onTick w')
     = Some (PeriodicTime 10 (secondsAfterEpoch 25) (UserCallback 7)).
Proof.
  apply (@createPeriodicTimeCallback_fires Z alwaysDefined stepping epoch
           [CreatePeriodicTimeCallback 10 7; Tick (secondsAfterEpoch 4)]
           0 10%Z epoch 7 (secondsAfterEpoch 25)).
  reflexivity.
Defined.

(** A threshold of 10 seconds: frames 4 and 8 seconds after registration
    invoke nothing, a jump to second 60 invokes the callback once, and so
    does the clock running backward from there to second 45. *)
Example createPeriodicTimeCallback_jump_and_rewind :
  log (play (CreatePeriodicTimeCallback 10 7
             :: map Tick (map secondsAfterEpoch [4; 8; 60; 61; 45]%Z))
         (initialWorld Z epoch))
  = [Invoked 0 (UserCallback 7) (secondsAfterEpoch 60);
     Invoked 0 (UserCallback 7) (secondsAfterEpoch 45)].
Proof. reflexivity. Qed.

(** A registration (onTick 1, onUntrack 2) sees two frames, the tracked
    entity changes, and three more frames and a second change follow. *)
Example setTrackedOnTickCallback_session :
  log (play ([SetTrackedOnTickCallback 1 2; Tick epoch; Tick epoch;
              TrackedEntityChanged]
             ++ ticks 3 epoch ++ [TrackedEntityChanged])
         (initialWorld Z epoch))
  = [OnTickCalled 0 1; OnTickCalled 0 1; OnUntrackCalled 1 2].
Proof. reflexivity. Qed.

(** ** The per-object store, continued *)

Section StoreMore.

Variable Matrix3 : Type.

Implicit Types (c : CesiumComponentCollection) (w : World Matrix3)
  (m : list (string * Component)).






Lemma get_In name x m : get name m = Some x -> In (name, x) m.
Proof.
  induction m as [|[n y] m IH]; simpl; [discriminate|].
  destruct (String.eqb_spec n name) as [->|_].
  - intros [= ->]. now left.
  - intros H. right. apply IH, H.
Qed.

Lemma In_get name x m : NoDup (map fst m) -> In (name, x) m -> get name m = Some x.
Proof.
  induction m as [|[n y] m IH]; simpl; intros Hnd Hin; [destruct Hin|].
  inversion Hnd as [|? ? Hn Hnd']; subst.
  destruct Hin as [[= -> ->]|Hin].
  - rewrite String.eqb_refl. reflexivity.
  - destruct (String.eqb_spec n name) as [->|_]; [|apply IH; assumption].
    exfalso. apply Hn. apply (in_map fst) in Hin. exact Hin.
Qed.

(** *** What enabling and disabling do to the viewer's collections *)

Lemma contains_In x (l : list nat) : contains x l = true <-> In x l.
Proof.
  unfold contains. rewrite existsb_exists. split.
  - intros (y & Hy & E). apply Nat.eqb_eq in E. subst. exact Hy.
  - intros H. exists x. split; [exact H|apply Nat.eqb_refl].
Qed.

Lemma contains_app x (l l' : list nat) :
  contains x (l ++ l') = contains x l || contains x l'.
Proof. unfold contains. apply existsb_app. Qed.


Lemma recreate_entities w :
  entities (recreateGeometryInstancePrimitive w) = entities w
  /\ scene_primitives (recreateGeometryInstancePrimitive w) = scene_primitives w.
Proof.
  unfold recreateGeometryInstancePrimitive.
  destruct (primitivePendingUpdate w); split; reflexivity.
Qed.

Lemma installed_enableInWorld_self x w :
  installed x (enableInWorld x w) = isSceneObject x.
Proof.
  destruct x as [e|p|g|o]; simpl.
  - destruct (contains e (entities w)) eqn:E; simpl; [exact E|].
    apply contains_app_self.
  - destruct (contains p (scene_primitives w)) eqn:E; simpl; [exact E|].
    apply contains_app_self.
  - reflexivity.
  - reflexivity.
Qed.

Lemma installed_enableInWorld_mono x y w :
  installed x w = true -> installed x (enableInWorld y w) = true.
Proof.
  intros H. destruct y as [e|p|g|o]; simpl.
  - destruct (negb (contains e (entities w))); [|exact H].
    destruct x; simpl in *; try exact H. rewrite contains_app, H. reflexivity.
  - destruct (negb (contains p (scene_primitives w))); [|exact H].
    destruct x; simpl in *; try exact H. rewrite contains_app, H. reflexivity.
  - destruct (recreate_entities
                (set_geometries (geometries w ++ [GeometryInstance g]) w))
      as [E1 E2].
    destruct x; simpl in *; try discriminate; [rewrite E1|rewrite E2]; exact H.
  - exact H.
Qed.



Lemma enableComponent_world name (cw : CesiumComponentCollection * World Matrix3) :
  snd (enableComponent name cw)
  = match get name (components (fst cw)) with
    | Some x => enableInWorld x (snd cw)
    | None => snd cw
    end.
Proof.
  destruct cw as [c w]. unfold enableComponent. simpl.
  destruct (get name (components c)); [destruct (defaultEntity c)|]; reflexivity.
Qed.

Lemma show_step n names (cw : CesiumComponentCollection * World Matrix3) :
  show (n :: names) cw = show names (enableComponent n cw).
Proof. reflexivity. Qed.

Lemma hide_step n names (cw : CesiumComponentCollection * World Matrix3) :
  hide (n :: names) cw = hide names (disableComponent n cw).
Proof. reflexivity. Qed.

Lemma show_mono x names : forall cw : CesiumComponentCollection * World Matrix3,
  installed x (snd cw) = true -> installed x (snd (show names cw)) = true.
Proof.
  induction names as [|n names IH]; intros cw H; [exact H|].
  rewrite show_step. apply IH. rewrite enableComponent_world.
  destruct (get n (components (fst cw)));
    [apply installed_enableInWorld_mono|]; exact H.
Qed.

Lemma show_installs name x names :
  forall cw : CesiumComponentCollection * World Matrix3,
  In name names -> get name (components (fst cw)) = Some x ->
  installed x (snd (show names cw)) = isSceneObject x.
Proof.
  induction names as [|n names IH]; intros cw Hin Hget; [destruct Hin|].
  rewrite show_step. destruct (string_dec n name) as [->|Hne].
  - destruct (isSceneObject x) eqn:Ex.
    + apply show_mono. rewrite enableComponent_world, Hget.
      rewrite installed_enableInWorld_self. exact Ex.
    + destruct x; simpl in *; try discriminate; reflexivity.
  - destruct Hin as [E|Hin]; [congruence|].
    apply IH; [exact Hin|]. rewrite enableComponent_components. exact Hget.
Qed.

(** X4: [show()] with no argument on a collection whose names are
    distinct.  Afterwards visibleComponents lists exactly the stored
    Entity and Primitive components, in stored order. *)
Theorem showAll_visible c w :
  NoDup (componentNames c) ->
  visibleComponents (fst (showAll (c, w))) (snd (showAll (c, w)))
  = filter isSceneObject (map snd (components c)).
Proof.
  intros Hnd. unfold showAll, visibleComponents. simpl fst.
  rewrite show_components. simpl fst.
  apply filter_ext_in. intros x Hx.
  apply in_map_iff in Hx as ([n y] & <- & Hin). simpl.
  assert (Hget := @In_get n y (components c) Hnd Hin).
  assert (Hn : In n (componentNames c)) by (apply (in_map fst) in Hin; exact Hin).
  exact (@show_installs n y (componentNames c) (c, w) Hn Hget).
Qed.

Lemma disableComponent_world name (cw : CesiumComponentCollection * World Matrix3) :
  snd (disableComponent name cw)
  = match get name (components (fst cw)) with
    | Some x => disableInWorld x (snd cw)
    | None => snd cw
    end.
Proof.
  destruct cw as [c w]. unfold disableComponent. simpl.
  destruct (get name (components c)); [destruct (lazy c)|]; reflexivity.
Qed.

Lemma hide_keeps m d : forall l w,
  (forall n x, In (n, x) l -> get n m = Some x) ->
  hide (map fst l) (mkCollection m false d, w)
  = (mkCollection m false d,
     fold_left (fun w component => disableInWorld component w) (map snd l) w).
Proof.
  induction l as [|[n x] l IH]; intros w Hl; [reflexivity|].
  simpl map. rewrite hide_step.
  assert (E : disableComponent n (mkCollection m false d, w)
              = (mkCollection m false d, disableInWorld x w)).
  { unfold disableComponent. simpl. rewrite (Hl n x (or_introl eq_refl)).
    reflexivity. }
  rewrite E. simpl fold_left. apply IH. intros n' x' H. apply Hl. now right.
Qed.





(** *** defaultEntity *)

Lemma enableComponent_defaultEntity name (cw : CesiumComponentCollection * World Matrix3) :
  defaultEntity (fst (enableComponent name cw))
  = match defaultEntity (fst cw) with
    | Some d => Some d
    | None => get name (components (fst cw))
    end.
Proof.
  destruct cw as [c w]. unfold enableComponent. cbn [fst].
  destruct (get name (components c)); destruct (defaultEntity c) eqn:E;
    cbn [fst defaultEntity]; congruence.
Qed.

Lemma disableComponent_defaultEntity name (cw : CesiumComponentCollection * World Matrix3) :
  defaultEntity (fst (disableComponent name cw)) = defaultEntity (fst cw).
Proof.
  destruct cw as [c w]. unfold disableComponent. simpl.
  destruct (get name (components c)); [destruct (lazy c)|]; reflexivity.
Qed.

Lemma show_defaultEntity d names :
  forall cw : CesiumComponentCollection * World Matrix3,
  defaultEntity (fst cw) = Some d ->
  defaultEntity (fst (show names cw)) = Some d.
Proof.
  induction names as [|n names IH]; intros cw H; [exact H|].
  rewrite show_step. apply IH. rewrite enableComponent_defaultEntity, H.
  reflexivity.
Qed.

Lemma hide_defaultEntity names :
  forall cw : CesiumComponentCollection * World Matrix3,
  defaultEntity (fst (hide names cw)) = defaultEntity (fst cw).
Proof.
  induction names as [|n names IH]; intros cw; [reflexivity|].
  rewrite hide_step, IH. apply disableComponent_defaultEntity.
Qed.

(** X8: defaultEntity is written once.  Once a collection has a
    defaultEntity, no sequence of show, hide and createCesiumEntity calls
    changes or clears it -- not even hiding and deleting the component it
    refers to. *)
Theorem defaultEntity_written_once d calls :
  forall cw : CesiumComponentCollection * World Matrix3,
  defaultEntity (fst cw) = Some d ->
  defaultEntity (fst (fold_left (@call Matrix3) calls cw)) = Some d.
Proof.
  induction calls as [|k calls IH]; intros cw H; [exact H|].
  simpl. apply IH. destruct k as [names| |names| |n id]; simpl.
  - apply show_defaultEntity, H.
  - apply show_defaultEntity, H.
  - rewrite hide_defaultEntity. exact H.
  - unfold hideAll. rewrite hide_defaultEntity. exact H.
  - exact H.
Qed.

(** *** show, a second time *)

Lemma enableComponent_again name (cw : CesiumComponentCollection * World Matrix3) :
  (forall x, get name (components (fst cw)) = Some x ->
     isGeometryInstance x = false
     /\ installed x (snd cw) = isSceneObject x
     /\ defaultEntity (fst cw) <> None) ->
  enableComponent name cw = cw.
Proof.
  destruct cw as [c w]. simpl. intros H. unfold enableComponent.
  destruct (get name (components c)) as [x|]; [|reflexivity].
  destruct (H x eq_refl) as (Hg & Hi & Hd).
  destruct (defaultEntity c); [|congruence].
  f_equal. destruct x as [e|p|g|o]; simpl in *.
  - rewrite Hi. reflexivity.
  - rewrite Hi. reflexivity.
  - discriminate.
  - reflexivity.
Qed.

Lemma show_sets_defaultEntity name x names :
  forall cw : CesiumComponentCollection * World Matrix3,
  In name names -> get name (components (fst cw)) = Some x ->
  defaultEntity (fst (show names cw)) <> None.
Proof.
  induction names as [|n names IH]; intros cw Hin Hget; [destruct Hin|].
  rewrite show_step. destruct (string_dec n name) as [->|Hne].
  - assert (H : exists d, defaultEntity (fst (enableComponent name cw)) = Some d).
    { rewrite enableComponent_defaultEntity, Hget.
      destruct (defaultEntity (fst cw)) as [d|]; eauto. }
    destruct H as [d Hd]. rewrite (show_defaultEntity _ _ Hd). discriminate.
  - destruct Hin as [E|Hin]; [congruence|].
    apply IH; [exact Hin|]. rewrite enableComponent_components. exact Hget.
Qed.

(** X6: for components other than geometry, show is idempotent: showing
    the same names a second time changes neither the collection nor the
    viewer. *)
Theorem show_twice_same names c w :
  (forall n x, In n names -> get n (components c) = Some x ->
     isGeometryInstance x = false) ->
  show names (show names (c, w)) = show names (c, w).
Proof.
  intros Hg.
  assert (again : forall l (cw : CesiumComponentCollection * World Matrix3),
            incl l names ->
            components (fst cw) = components c ->
            (forall n x, In n names -> get n (components c) = Some x ->
               installed x (snd cw) = isSceneObject x
               /\ defaultEntity (fst cw) <> None) ->
            show l cw = cw).
  { induction l as [|n l IH]; intros cw Hl Hc Hcw; [reflexivity|].
    rewrite show_step.
    assert (E : enableComponent n cw = cw).
    { apply enableComponent_again. rewrite Hc. intros x Hx.
      assert (Hn : In n names) by (apply Hl; now left).
      destruct (Hcw n x Hn Hx) as [Hi Hd]. repeat split; eauto. }
    rewrite E. apply IH; [|exact Hc|exact Hcw].
    intros y Hy. apply Hl. now right. }
  apply again.
  - apply incl_refl.
  - apply (show_components names (c, w)).
  - intros n x Hn Hx. split.
    + exact (@show_installs n x names (c, w) Hn Hx).
    + exact (@show_sets_defaultEntity n x names (c, w) Hn Hx).
Qed.

(** *** track *)

(** X9: the anchor of track outlives its component.  While defaultEntity
    is stored, tracking it makes isTracked true; after [hide()] on a lazy
    collection, track still points the camera at the deleted component
    and isTracked is false. *)
Theorem track_after_hideAll_lazy d c w v :
  lazy c = true ->
  NoDup (componentNames c) ->
  defaultEntity c = Some d ->
  In d (map snd (components c)) ->
  isTracked c (fst (track false c v)) = true
  /\ trackedEntity (fst (track false (fst (hideAll (c, w))) v)) = Some d
  /\ isTracked (fst (hideAll (c, w)))
       (fst (track false (fst (hideAll (c, w))) v)) = false.
Proof.
  destruct c as [m lz dflt]. unfold hideAll, componentNames.
  cbn [fst components lazy defaultEntity].
  intros -> Hnd -> Hin. rewrite hide_snapshot by exact Hnd.
  unfold track, isTracked. simpl. repeat split.
  apply existsb_exists. exists d. split; [exact Hin|apply Component_eqb_refl].
Qed.

End StoreMore.

(** ** The viewer's collections along a run *)

Section SceneFacts.

Variable Matrix3 : Type.
Variable computeIcrfToFixedMatrix : JulianDate.t -> option Matrix3.
Variable Primitive_update : CesiumPrimitive Matrix3 -> CesiumPrimitive Matrix3.

Implicit Types (w : World Matrix3) (h : nat).

Local Abbreviation step' := (step computeIcrfToFixedMatrix Primitive_update).
Local Abbreviation run' := (run computeIcrfToFixedMatrix Primitive_update).

Lemma keepsScene_refl w : keepsScene w w.
Proof. split; auto. Qed.

Lemma keepsScene_trans w w1 w2 :
  keepsScene w w1 -> keepsScene w1 w2 -> keepsScene w w2.
Proof. intros [E1 S1] [E2 S2]. split; [congruence|auto]. Qed.

Lemma remove_self x : remove x [x] = [].
Proof. unfold remove. simpl. rewrite Nat.eqb_refl. reflexivity. Qed.

Lemma ks_recreateCallback h w : keepsScene w (recreateCallback h w).
Proof.
  unfold recreateCallback.
  destruct (primitivePendingCreation w); [apply keepsScene_refl|].
  destruct w as [t ot tc en sp ge pr pu pc hp ni lg].
  unfold keepsScene, sceneHoldsCurrent. simpl.
  destruct ge as [|g ge]; [destruct pr as [old|]|]; simpl; split; auto.
  intros ->. apply remove_self.
Qed.

Lemma ks_readyListener h p lastState w :
  keepsScene w
    (readyListener computeIcrfToFixedMatrix Primitive_update h p lastState w).
Proof.
  unfold readyListener.
  destruct (deref p w) as [obj|]; [|apply keepsScene_refl].
  destruct w as [t ot tc en sp ge pr pu pc hp ni lg].
  unfold keepsScene, sceneHoldsCurrent.
  destruct (negb (ready obj)).
  - destruct (negb (_state obj =? lastState)%Z); simpl; split; auto.
  - cbv zeta. cbn [clock_currentTime].
    destruct (computeIcrfToFixedMatrix t); destruct pr as [old|]; simpl;
      split; auto; intros ->; rewrite ?remove_self; reflexivity.
Qed.

Lemma ks_runTickListener h l w :
  keepsScene w
    (runTickListener computeIcrfToFixedMatrix Primitive_update h l w).
Proof.
  unfold runTickListener. destruct l as [n c cb|s last cb|p ls|k].
  - destruct (c <? n); [split; auto|].
    apply keepsScene_trans with (invoke h cb (clock_currentTime w) w);
      [|split; auto].
    unfold invoke. destruct cb; [|split; auto].
    apply keepsScene_trans with (add_log (Invoked h RecreateCallback
                                            (clock_currentTime w)) w);
      [split; auto|apply ks_recreateCallback].
  - cbv zeta.
    destruct (Z.abs (JulianDate.secondsDifference (clock_currentTime w) last)
              <? s)%Z; [apply keepsScene_refl|].
    apply keepsScene_trans with (invoke h cb (clock_currentTime w) w);
      [|split; auto].
    unfold invoke. destruct cb; [|split; auto].
    apply keepsScene_trans with (add_log (Invoked h RecreateCallback
                                            (clock_currentTime w)) w);
      [split; auto|apply ks_recreateCallback].
  - apply ks_readyListener.
  - split; auto.
Qed.

Lemma ks_raiseOnTick w :
  keepsScene w (raiseOnTick computeIcrfToFixedMatrix Primitive_update w).
Proof.
  unfold raiseOnTick. generalize (Event.handles (clock_onTick w)) as hs.
  intros hs. revert w. induction hs as [|h hs IH]; intros w;
    [apply keepsScene_refl|].
  simpl. eapply keepsScene_trans; [|apply IH].
  destruct (Event.lookup h (clock_onTick w));
    [apply ks_runTickListener|apply keepsScene_refl].
Qed.

Lemma ks_raiseTrackedEntityChanged w :
  keepsScene w (raiseTrackedEntityChanged w).
Proof.
  unfold raiseTrackedEntityChanged.
  generalize (Event.handles (trackedEntityChanged w)) as hs.
  intros hs. revert w. induction hs as [|h hs IH]; intros w;
    [apply keepsScene_refl|].
  simpl. eapply keepsScene_trans; [|apply IH].
  destruct (Event.lookup h (trackedEntityChanged w)) as [[hT k]|];
    [split; auto|apply keepsScene_refl].
Qed.

Lemma ks_recreateGeometryInstancePrimitive w :
  keepsScene w (recreateGeometryInstancePrimitive w).
Proof.
  unfold recreateGeometryInstancePrimitive.
  destruct (primitivePendingUpdate w); split; auto.
Qed.

(** Every input but the enabling or disabling of an Entity or Primitive
    component leaves the viewer's collections as described. *)
Lemma ks_step i w :
  match i with
  | Enable (Entity _) | Disable (Entity _)
  | Enable (Primitive _) | Disable (Primitive _) => True
  | _ => keepsScene w (step' i w)
  end.
Proof.
  destruct i as [t| |c|c|p st r|a b|n k|s k|h]; unfold step.
  - unfold tick.
    apply keepsScene_trans with (set_currentTime t w); [split; auto|].
    apply ks_raiseOnTick.
  - apply ks_raiseTrackedEntityChanged.
  - destruct c; try exact I.
    + unfold enableInWorld.
      eapply keepsScene_trans; [|apply ks_recreateGeometryInstancePrimitive].
      split; auto.
    + apply keepsScene_refl.
  - destruct c; try exact I.
    + unfold disableInWorld.
      eapply keepsScene_trans; [|apply ks_recreateGeometryInstancePrimitive].
      split; auto.
    + apply keepsScene_refl.
  - unfold hostProgress. destruct (deref p w); split; auto.
  - split; auto.
  - split; auto.
  - split; auto.
  - unfold cancel.
    destruct (Event.lookup h (clock_onTick w))
      as [[n c [|k]|s last [|k]|p ls|k]|]; split; auto.
Qed.

Lemma NoDup_remove x (l : list nat) : NoDup l -> NoDup (remove x l).
Proof. apply NoDup_filter. Qed.

Lemma contains_false_notin x (l : list nat) : contains x l = false -> ~ In x l.
Proof.
  unfold contains. intros H Hin.
  assert (existsb (Nat.eqb x) l = true)
    by (apply existsb_exists; exists x; split; [exact Hin|apply Nat.eqb_refl]).
  congruence.
Qed.

(** X12: [viewer.entities] never holds an entity twice, in any state the
    page can reach. *)
Theorem entities_never_duplicated t0 inputs :
  NoDup (entities (run' inputs (initialWorld Matrix3 t0))).
Proof.
  assert (H : forall w, NoDup (entities w) -> NoDup (entities (run' inputs w))).
  { induction inputs as [|i inputs IH]; intros w Hw; [exact Hw|].
    simpl. apply IH. pose proof (ks_step i w) as K.
    destruct i as [t| |[e|q|g|o]|[e|q|g|o]|p st r|a b|n k|s k|h];
      try (rewrite (proj1 K); exact Hw).
    - unfold step, enableInWorld.
      destruct (contains e (entities w)) eqn:Ec; simpl; [exact Hw|].
      apply NoDup_app; [exact Hw | repeat constructor; intros [] |].
      intros x Hx [<-|[]]. apply (contains_false_notin _ _ Ec), Hx.
    - unfold step, enableInWorld.
      destruct (negb (contains q (scene_primitives w))); exact Hw.
    - apply NoDup_remove, Hw.
    - exact Hw. }
  apply H. constructor.
Qed.


(** *** Cancelling a periodic callback *)

(** A handle is registered on one event only. *)
Lemma step_one_event i w :
  wellFormed w ->
  (forall h, Event.lookup h (clock_onTick w) <> None ->
     Event.lookup h (trackedEntityChanged w) = None) ->
  forall h, Event.lookup h (clock_onTick (step' i w)) <> None ->
    Event.lookup h (trackedEntityChanged (step' i w)) = None.
Proof.
  intros (Wt & Wc & Wl) Hd.
  assert (by_frame : forall hs w', tickFrame hs w w' ->
            forall h, Event.lookup h (clock_onTick w') <> None ->
              Event.lookup h (trackedEntityChanged w') = None).
  { intros hs w' (_ & N & _ & D & C & _) h Hh. rewrite C.
    destruct (Nat.lt_ge_cases h (nextId w)) as [Hlt|Hge]; [|apply Wc, Hge].
    apply Hd. intros Hn. apply Hh, D; assumption. }
  destruct i as [t| |c|c|p st r|a b|n k|s k|h']; unfold step.
  - unfold tick. intros h Hh.
    destruct (tf_raiseOnTick computeIcrfToFixedMatrix Primitive_update
                (set_currentTime t w)) as (_ & N & _ & D & C & _).
    rewrite C. simpl in *.
    destruct (Nat.lt_ge_cases h (nextId w)) as [Hlt|Hge]; [|apply Wc, Hge].
    apply Hd. intros Hn. apply Hh, D; assumption.
  - intros h Hh.
    destruct (cf_raiseTrackedEntityChanged w) as (_ & D & _ & E & _).
    apply E, Hd. intros Hn. apply Hh, D, Hn.
  - apply (by_frame []), tf_enableInWorld.
  - apply (by_frame []), tf_disableInWorld.
  - apply (by_frame []), tf_hostProgress.
  - simpl. intros h. rewrite !lookup_add.
    destruct (Event.lookup h (clock_onTick w)) eqn:Eh.
    + intros _. rewrite (Hd h) by congruence.
      assert (h < nextId w) by (apply Wt; eapply lookup_Some_In, Eh).
      destruct (Nat.eqb_spec (S (nextId w)) h); [lia|reflexivity].
    + destruct (Nat.eqb_spec (nextId w) h) as [<-|]; [|congruence].
      intros _. rewrite Wc by lia.
      destruct (Nat.eqb_spec (S (nextId w)) (nextId w)); [lia|reflexivity].
  - apply (by_frame []), tf_addTickListener.
  - apply (by_frame []), tf_addTickListener.
  - apply (by_frame [h']), (tf_cancel computeIcrfToFixedMatrix).
Qed.

Lemma run_one_event inputs : forall w,
  wellFormed w ->
  (forall h, Event.lookup h (clock_onTick w) <> None ->
     Event.lookup h (trackedEntityChanged w) = None) ->
  forall h, Event.lookup h (clock_onTick (run' inputs w)) <> None ->
    Event.lookup h (trackedEntityChanged (run' inputs w)) = None.
Proof.
  induction inputs as [|i inputs IH]; intros w Ww Hd; [exact Hd|].
  simpl. apply IH.
  - apply step_wellFormed, Ww.
  - apply step_one_event; assumption.
Qed.

Lemma run_retired inputs : forall w h,
  h < nextId w ->
  Event.lookup h (clock_onTick w) = None ->
  Event.lookup h (trackedEntityChanged w) = None ->
  Event.lookup h (clock_onTick (run' inputs w)) = None
  /\ calls h (run' inputs w) = calls h w.
Proof.
  induction inputs as [|i inputs IH]; intros w h Hlt Ht Hc; [split; auto|].
  simpl.
  destruct (step_retired computeIcrfToFixedMatrix Primitive_update i w
              Hlt Ht Hc) as (A & B & C & D).
  destruct (IH _ _ A B C) as [E F]. split; [exact E|congruence].
Qed.

(** X11: cancelling a periodic callback.  When client code calls the
    removal function of one of its periodic callbacks, at any point of any
    run, the callback is not registered any more and is never invoked
    again, whatever happens afterwards. *)
Theorem cancel_stops_callback t0 inputs h l post :
  let w := run' inputs (initialWorld Matrix3 t0) in
  Event.lookup h (clock_onTick w) = Some l ->
  isClientPeriodic l = true ->
  let w' := run' (Cancel h :: post) w in
  Event.lookup h (clock_onTick w') = None
  /\ calls h w' = calls h w.
Proof.
  intros w Hl Hk w'.
  assert (Ww : wellFormed w) by apply run_wellFormed, initialWorld_wellFormed.
  assert (Hc : Event.lookup h (trackedEntityChanged w) = None).
  { apply (run_one_event inputs (initialWorld_wellFormed _ t0)).
    - intros h' Hh'. reflexivity.
    - fold w. congruence. }
  assert (E : step' (Cancel h) w = removeTickListener h w).
  { unfold step, cancel. rewrite Hl.
    destruct l as [n c [|k]|s last [|k]|p ls|k]; try discriminate; reflexivity. }
  unfold w'.
  change (run' (Cancel h :: post) w) with (run' post (step' (Cancel h) w)).
  rewrite E.
  assert (L : calls h (removeTickListener h w) = calls h w) by reflexivity.
  rewrite <- L. apply run_retired.
  - simpl. apply Ww. eapply lookup_Some_In, Hl.
  - simpl. rewrite lookup_remove, Nat.eqb_refl. reflexivity.
  - exact Hc.
Qed.

End SceneFacts.

(** ** Instances *)

Lemma showAll_visible_witness :
  visibleComponents (fst (showAll (satellite, initialWorld Z epoch)))
    (snd (showAll (satellite, initialWorld Z epoch)))
  = [Entity 1; Entity 2].
Proof.
  apply (@showAll_visible Z satellite (initialWorld Z epoch)).
  repeat constructor; simpl; intuition discriminate.
Defined.


Lemma show_twice_same_witness :
  show ["Groundstation"%string]
    (show ["Groundstation"%string]
       (GroundStationEntity 7, initialWorld Z epoch))
  = show ["Groundstation"%string]
      (GroundStationEntity 7, initialWorld Z epoch).
Proof.
  apply (@show_twice_same Z ["Groundstation"%string] (GroundStationEntity 7)
           (initialWorld Z epoch)).
  intros n x [<-|[]] H. vm_compute in H. injection H as <-. reflexivity.
Defined.


Lemma defaultEntity_written_once_witness :
  defaultEntity
    (fst (fold_left (@call Z)
            [CallHideAll; CallCreateCesiumEntity "Groundstation" 8; CallShowAll]
            (showAll (GroundStationEntity 7, initialWorld Z epoch))))
  = Some (Entity 7).
Proof.
  apply (@defaultEntity_written_once Z (Entity 7)
           [CallHideAll; CallCreateCesiumEntity "Groundstation" 8; CallShowAll]
           (showAll (GroundStationEntity 7, initialWorld Z epoch))).
  reflexivity.
Defined.

Lemma track_after_hideAll_lazy_witness :
  let c := fst (showAll (GroundStationEntity 7, initialWorld Z epoch)) in
  let w := snd (showAll (GroundStationEntity 7, initialWorld Z epoch)) in
  let v := mkFocus None None true in
  isTracked c (fst (track false c v)) = true
  /\ trackedEntity (fst (track false (fst (hideAll (c, w))) v))
     = Some (Entity 7)
  /\ isTracked (fst (hideAll (c, w)))
       (fst (track false (fst (hideAll (c, w))) v)) = false.
Proof.
  apply (@track_after_hideAll_lazy Z (Entity 7)
           (fst (showAll (GroundStationEntity 7, initialWorld Z epoch)))
           (snd (showAll (GroundStationEntity 7, initialWorld Z epoch)))
           (mkFocus None None true)).
  - reflexivity.
  - repeat constructor; simpl; intuition discriminate.
  - reflexivity.
  - simpl. left. reflexivity.
Defined.


Lemma cancel_stops_callback_witness :
  let w := play (CreatePeriodicTickCallback 1 7 :: ticks 4 epoch)
             (initialWorld Z epoch) in
  let w' := play (Cancel 0 :: ticks 6 epoch) w in
  Event.lookup 0 (clock_onTick w') = None
  /\ calls 0 w' = calls 0 w.
Proof.
  apply (@cancel_stops_callback Z alwaysDefined stepping epoch
           (CreatePeriodicTickCallback 1 7 :: ticks 4 epoch) 0
           (PeriodicTick 1 0 (UserCallback 7)) (ticks 6 epoch)).
  - reflexivity.
  - reflexivity.
Defined.

(** ** hide() and what it leaves behind *)

Section HideMore.

Variable Matrix3 : Type.

Implicit Types (c : CesiumComponentCollection) (w : World Matrix3)
  (m : list (string * Component)).

Lemma recreate_geometries w :
  geometries (recreateGeometryInstancePrimitive w) = geometries w.
Proof.
  unfold recreateGeometryInstancePrimitive.
  destruct (primitivePendingUpdate w); reflexivity.
Qed.

Lemma filter_filter {A} (f g : A -> bool) l :
  filter f (filter g l) = filter (fun x => g x && f x) l.
Proof.
  induction l as [|x l IH]; [reflexivity|]. simpl.
  destruct (g x); simpl; [destruct (f x)|]; rewrite IH; reflexivity.
Qed.

Lemma geometries_fold_disable l : forall w,
  geometries (fold_left (fun w component => disableInWorld component w) l w)
  = filter (fun g => negb (isOneOf (filter isGeometryInstance l) g))
      (geometries w).
Proof.
  induction l as [|x l IH]; intros w.
  - simpl. symmetry. apply forallb_filter_id.
    apply forallb_forall. reflexivity.
  - simpl fold_left. rewrite IH.
    destruct x as [e|p|g|o];
      try (destruct w as [t ot tc en sp ge pr pu pc hp ni lg]; reflexivity).
    unfold disableInWorld. rewrite recreate_geometries.
    destruct w as [t ot tc en sp ge pr pu pc hp ni lg].
    cbn [geometries set_geometries].
    rewrite filter_filter. apply filter_ext. intros y.
    cbn [filter isGeometryInstance isOneOf existsb].
    rewrite negb_orb. reflexivity.
Qed.

Lemma hideAll_world c w :
  NoDup (componentNames c) ->
  snd (hideAll (c, w))
  = fold_left (fun w component => disableInWorld component w)
      (map snd (components c)) w.
Proof.
  destruct c as [m lz d]. unfold hideAll, componentNames.
  cbn [fst components]. intros Hnd. destruct lz.
  - rewrite hide_snapshot by exact Hnd. reflexivity.
  - rewrite hide_keeps by (intros n x; apply In_get, Hnd). reflexivity.
Qed.

(** X19: what [hide()] leaves in the shared geometry list.  On a
    collection with distinct names, lazy or not, [hide()] takes every
    copy of the collection's own geometry instances out of the list the
    batched primitive is built from, and leaves the geometry of other
    collections in it, in its order. *)
Theorem hideAll_geometries c w :
  NoDup (componentNames c) ->
  geometries (snd (hideAll (c, w)))
  = filter (fun geometry => negb (isOneOf (ownGeometry c) geometry))
      (geometries w).
Proof.
  intros Hnd. rewrite hideAll_world by exact Hnd.
  rewrite geometries_fold_disable. reflexivity.
Qed.

(** X20: on a collection that is not lazy, [hide()] followed by [show()]
    brings everything back: the collection is as it was and
    visibleComponents lists every stored Entity and Primitive. *)
Theorem show_after_hideAll_eager c w :
  lazy c = false ->
  NoDup (componentNames c) ->
  fst (hideAll (c, w)) = c
  /\ components (fst (showAll (hideAll (c, w)))) = components c
  /\ visibleComponents (fst (showAll (hideAll (c, w))))
       (snd (showAll (hideAll (c, w))))
     = filter isSceneObject (map snd (components c)).
Proof.
  intros Hlz Hnd.
  assert (E : hideAll (c, w)
              = (c, fold_left (fun w component => disableInWorld component w)
                      (map snd (components c)) w)).
  { destruct c as [m lz d]. cbn [lazy] in Hlz. subst lz.
    unfold hideAll, componentNames in *. cbn [fst components] in *.
    apply hide_keeps. intros n x. apply In_get, Hnd. }
  rewrite E. cbn [fst].
  split; [reflexivity|]. unfold showAll. cbn [fst].
  split; [apply show_components|].
  unfold visibleComponents. rewrite show_components. cbn [fst].
  apply filter_ext_in. intros x Hx.
  apply in_map_iff in Hx as ([n y] & <- & Hin). cbn [snd].
  assert (Hget := @In_get n y (components c) Hnd Hin).
  assert (Hn : In n (componentNames c)) by (apply (in_map fst) in Hin; exact Hin).
  exact (@show_installs Matrix3 n y (componentNames c) (c, _) Hn Hget).
Qed.

End HideMore.

Lemma hideAll_geometries_witness :
  geometries
    (snd (hideAll
            (satellite,
             snd (show ["Orbit"%string]
                    (showAll (satellite,
                              enableInWorld orbitB (initialWorld Z epoch)))))))
  = [orbitB].
Proof.
  apply (@hideAll_geometries Z satellite
           (snd (show ["Orbit"%string]
                   (showAll (satellite,
                             enableInWorld orbitB (initialWorld Z epoch)))))).
  repeat constructor; simpl; intuition discriminate.
Defined.

Lemma show_after_hideAll_eager_witness :
  let c := mkCollection
             [("Point"%string, Entity 1); ("Orbit"%string, orbitA)] false None in
  visibleComponents
    (fst (showAll (hideAll (showAll (c, initialWorld Z epoch)))))
    (snd (showAll (hideAll (showAll (c, initialWorld Z epoch)))))
  = [Entity 1].
Proof.
  apply (@show_after_hideAll_eager Z
           (fst (showAll
                   (mkCollection
                      [("Point"%string, Entity 1); ("Orbit"%string, orbitA)]
                      false None, initialWorld Z epoch)))
           (snd (showAll
                   (mkCollection
                      [("Point"%string, Entity 1); ("Orbit"%string, orbitA)]
                      false None, initialWorld Z epoch)))).
  - reflexivity.
  - repeat constructor; simpl; intuition discriminate.
Defined.

(** ** The satellite store's url parameters *)

Section UrlParamFacts.

Import UrlParam.

Open Scope string_scope.

Lemma occurs_app c s s' : occurs c (s ++ s') = occurs c s || occurs c s'.
Proof.
  induction s as [|d s IH]; simpl; [reflexivity|].
  rewrite IH. apply orb_assoc.
Qed.

Lemma replaceAll_back r s :
  occurs r s = false -> replaceAll r " " (replaceAll " " r s) = s.
Proof.
  induction s as [|c s IH]; simpl; [reflexivity|].
  intros H. apply orb_false_elim in H as [Hc Hs]. rewrite (IH Hs). f_equal.
  destruct (Ascii.eqb_spec c " ") as [->|Hsp].
  - rewrite Ascii.eqb_refl. reflexivity.
  - rewrite Hc. reflexivity.
Qed.

Lemma occurs_join c l :
  c <> ","%char -> forallb (fun e => negb (occurs c e)) l = true ->
  occurs c (join "," l) = false.
Proof.
  intros Hc. induction l as [|x l IH]; simpl; [reflexivity|].
  intros H. apply andb_prop in H as [Hx Hl]. apply negb_true_iff in Hx.
  destruct l as [|y l]; [exact Hx|].
  change (join "," (x :: y :: l)) with (x ++ String "," (join "," (y :: l))).
  rewrite occurs_app, Hx.
  change (occurs c (String "," (join "," (y :: l))))
    with (Ascii.eqb "," c || occurs c (join "," (y :: l))).
  destruct (Ascii.eqb_spec ","%char c) as [E|_]; [congruence|].
  rewrite (IH Hl). reflexivity.
Qed.

Lemma split_piece sep x :
  occurs sep x = false -> split sep x = [x].
Proof.
  induction x as [|c x IH]; simpl; [reflexivity|].
  intros H. apply orb_false_elim in H as [Hc Hx]. rewrite Hc, (IH Hx).
  reflexivity.
Qed.

Lemma split_first sep x y :
  occurs sep x = false -> split sep (x ++ String sep y) = x :: split sep y.
Proof.
  induction x as [|c x IH]; simpl.
  - intros _. rewrite Ascii.eqb_refl. reflexivity.
  - intros H. apply orb_false_elim in H as [Hc Hx]. rewrite Hc, (IH Hx).
    reflexivity.
Qed.

Lemma split_join sep x l :
  forallb (fun e => negb (occurs sep e)) (x :: l) = true ->
  split sep (join sep (x :: l)) = x :: l.
Proof.
  revert x. induction l as [|y l IH]; intros x H.
  - simpl in *. rewrite andb_true_r in H. apply negb_true_iff in H.
    apply split_piece, H.
  - change (join sep (x :: y :: l)) with (x ++ String sep (join sep (y :: l))).
    simpl in H. apply andb_prop in H as [Hx Hl]. apply negb_true_iff in Hx.
    rewrite split_first by exact Hx. f_equal. apply IH. exact Hl.
Qed.

Lemma filter_all {A} (f : A -> bool) l : forallb f l = true -> filter f l = l.
Proof.
  induction l as [|x l IH]; simpl; [reflexivity|].
  intros H. apply andb_prop in H as [Hx Hl]. rewrite Hx, (IH Hl). reflexivity.
Qed.

Lemma forallb_weaken {A} (f g : A -> bool) l :
  (forall x, f x = true -> g x = true) ->
  forallb f l = true -> forallb g l = true.
Proof.
  intros Hfg. induction l as [|x l IH]; simpl; [reflexivity|].
  intros H. apply andb_prop in H as [Hx Hl]. rewrite (Hfg x Hx), (IH Hl).
  reflexivity.
Qed.

(** X13: the url round trip of a list of names.  With [r] the character
    written for the space (not the comma), a list of non-empty names that
    contain neither a comma nor [r] is read back from its url parameter
    exactly as it was written; the empty list included. *)
Theorem deserialize_serialize r v :
  r <> ","%char ->
  forallb (plain r) v = true ->
  deserialize r (serialize r v) = v.
Proof.
  intros Hr Hv. unfold deserialize, serialize.
  assert (Hnor : forallb (fun e => negb (occurs r e)) v = true).
  { revert Hv. apply forallb_weaken. unfold plain. intros x Hx.
    apply andb_prop in Hx as [_ Hx]. exact Hx. }
  assert (Hnoc : forallb (fun e => negb (occurs "," e)) v = true).
  { revert Hv. apply forallb_weaken. unfold plain. intros x Hx.
    apply andb_prop in Hx as [Hx _]. apply andb_prop in Hx as [_ Hx]. exact Hx. }
  assert (Hne : forallb truthy v = true).
  { revert Hv. apply forallb_weaken. unfold plain. intros x Hx.
    apply andb_prop in Hx as [Hx _]. apply andb_prop in Hx as [Hx _]. exact Hx. }
  rewrite replaceAll_back by (apply occurs_join; assumption).
  destruct v as [|x l]; [reflexivity|].
  rewrite split_join by exact Hnoc. apply filter_all, Hne.
Qed.

End UrlParamFacts.

Lemma deserialize_serialize_witness :
  UrlParam.enabledComponents_deserialize
    (UrlParam.enabledComponents_serialize
       ["Point"; "Label"; "Sensor cone"]%string)
  = ["Point"; "Label"; "Sensor cone"]%string.
Proof.
  apply (@deserialize_serialize "-"%char
           ["Point"; "Label"; "Sensor cone"]%string).
  - discriminate.
  - reflexivity.
Defined.

(** What is written, and a name that does not come back: a "-" in a tag
    is read as a space. *)
Example enabledComponents_in_the_url :
  UrlParam.enabledComponents_serialize ["Point"; "Label"; "Sensor cone"]%string
  = "Point,Label,Sensor-cone"%string
  /\ UrlParam.enabledTags_deserialize
       (UrlParam.enabledTags_serialize ["Iridium-NEXT"]%string)
     = ["Iridium NEXT"]%string.
Proof. split; reflexivity. Qed.

(** ** Store state in the url *)

Section UrlSyncFacts.

Import UrlSync.

Variable Value : Type.
Variable toString : Value -> string.
Variable ofString : string -> Value.

Implicit Types (config : SyncConfigEntry Value) (params query : Params)
  (store : Store Value).

Lemma lookup_delete_same k params : lookup k (delete k params) = None.
Proof.
  induction params as [|[k' v] params IH]; [reflexivity|].
  unfold delete in *. simpl. destruct (String.eqb_spec k' k) as [->|Hne]; simpl.
  - exact IH.
  - destruct (String.eqb_spec k' k); [congruence|exact IH].
Qed.

Lemma lookup_delete_other k k' params :
  k' <> k -> lookup k' (delete k params) = lookup k' params.
Proof.
  intros Hne. induction params as [|[k0 v] params IH]; [reflexivity|].
  unfold delete in *. simpl. destruct (String.eqb_spec k0 k) as [->|Hk]; simpl.
  - destruct (String.eqb_spec k k'); [congruence|exact IH].
  - rewrite IH. reflexivity.
Qed.

Lemma lookup_set_same k v params : lookup k (set k v params) = Some v.
Proof.
  induction params as [|[k' v'] params IH]; simpl.
  - rewrite String.eqb_refl. reflexivity.
  - destruct (String.eqb_spec k' k) as [->|Hne]; simpl.
    + rewrite String.eqb_refl. reflexivity.
    + destruct (String.eqb_spec k' k); [congruence|exact IH].
Qed.

Lemma lookup_set_other k k' v params :
  k' <> k -> lookup k' (set k v params) = lookup k' params.
Proof.
  intros Hne. induction params as [|[k0 v0] params IH]; simpl.
  - destruct (String.eqb_spec k k'); [congruence|reflexivity].
  - destruct (String.eqb_spec k0 k) as [->|Hk]; simpl.
    + destruct (String.eqb_spec k k'); [congruence|].
      apply lookup_delete_other, Hne.
    + rewrite IH. reflexivity.
Qed.

(** What [stateToUrl] leaves under a parameter no entry writes. *)
Lemma stateToUrl_other store k syncConfig : forall params,
  ~ In k (map (@param Value) syncConfig) ->
  lookup k (stateToUrl toString syncConfig store params) = lookup k params.
Proof.
  induction syncConfig as [|config syncConfig IH]; intros params Hk;
    [reflexivity|].
  unfold stateToUrl in *. simpl fold_left. rewrite IH.
  - assert (Hne : k <> param config) by (intros ->; apply Hk; now left).
    unfold stateToUrlEntry.
    destruct (defaults store (name config)) as [d|];
      [destruct (String.eqb _ _)|];
      auto using lookup_delete_other, lookup_set_other.
  - intros H. apply Hk. now right.
Qed.

(** What [stateToUrl] leaves under the parameter of an entry. *)
Lemma stateToUrl_entry store config syncConfig : forall params,
  NoDup (map (@param Value) syncConfig) ->
  In config syncConfig ->
  lookup (param config) (stateToUrl toString syncConfig store params)
  = match defaults store (name config) with
    | Some d =>
        if String.eqb (serializer toString config d)
             (serializer toString config (state store (name config)))
        then None
        else Some (serializer toString config (state store (name config)))
    | None => Some (serializer toString config (state store (name config)))
    end.
Proof.
  induction syncConfig as [|c syncConfig IH]; intros params Hnd Hin;
    [destruct Hin|].
  inversion Hnd as [|? ? Hc Hnd']; subst.
  destruct Hin as [->|Hin].
  - unfold stateToUrl. simpl fold_left.
    change (fold_left (stateToUrlEntry toString store) syncConfig ?p)
      with (stateToUrl toString syncConfig store p).
    rewrite stateToUrl_other by exact Hc.
    unfold stateToUrlEntry, resolve.
    destruct (defaults store (name config)) as [d|];
      [destruct (String.eqb _ _)|];
      auto using lookup_delete_same, lookup_set_same.
  - unfold stateToUrl. simpl fold_left. apply IH; assumption.
Qed.

(** The loop of [urlToState] on entries that do not concern a name. *)
Lemma urlToState_loop_other query n syncConfig : forall store,
  ~ In n (map (@name Value) syncConfig) ->
  state (fold_left (urlToStateEntry ofString query) syncConfig store) n
  = state store n
  /\ defaults
       (fold_left (urlToStateEntry ofString query) syncConfig store) n
     = defaults store n.
Proof.
  induction syncConfig as [|c syncConfig IH]; intros store Hn;
    [split; reflexivity|].
  simpl fold_left.
  assert (Hne : n <> name c) by (intros ->; apply Hn; now left).
  destruct (IH (urlToStateEntry ofString query store c)) as [A B].
  { intros H. apply Hn. now right. }
  rewrite A, B. unfold urlToStateEntry.
  assert (W : forall A (v : A) f, write (name c) v f n = f n).
  { intros A0 v f. unfold write. destruct (String.eqb_spec n (name c));
      [congruence|reflexivity]. }
  destruct (lookup (param c) query) as [text|]; cbn [state defaults];
    [|rewrite W; split; reflexivity].
  destruct (deserializer ofString c text) as [value|];
    cbn [state defaults]; [|rewrite W; split; reflexivity].
  destruct (match valid c with Some v => negb (v value) | None => false end);
    cbn [state defaults]; rewrite ?W; split; reflexivity.
Qed.

Lemma urlToState_loop_rejected query syncConfig : forall store,
  (forall config text, In config syncConfig ->
     lookup (param config) query = Some text ->
     exists v, deserializer ofString config text = Some v
               /\ match valid config with
                  | Some valid => valid v = true
                  | None => True
                  end) ->
  rejected (fold_left (urlToStateEntry ofString query) syncConfig store)
  = rejected store.
Proof.
  induction syncConfig as [|c syncConfig IH]; intros store H; [reflexivity|].
  simpl fold_left. rewrite IH by (intros; eapply H; [right|]; eassumption).
  unfold urlToStateEntry.
  destruct (lookup (param c) query) as [text|] eqn:E; [|reflexivity].
  destruct (H c text (or_introl eq_refl) E) as (v & -> & Hv).
  destruct (valid c) as [f|]; [rewrite Hv|]; reflexivity.
Qed.

(** X21: a page reload restores the synced state.  Let the entries have
    distinct names and distinct url parameters, let the store have a
    default on record for each, let every current value and default be
    one the url can carry, and let a default be told from the current
    value by its serialization.  Then loading the parameters written by
    [stateToUrl] into a store that holds the defaults gives every synced
    name the value it had, records the same defaults, and finds no
    parameter invalid. *)
Theorem reload_restores_state syncConfig store fresh params :
  NoDup (map (@name Value) syncConfig) ->
  NoDup (map (@param Value) syncConfig) ->
  (forall config, In config syncConfig ->
     defaults store (name config) = Some (state fresh (name config))
     /\ carried toString ofString config (state fresh (name config))
     /\ carried toString ofString config (state store (name config))) ->
  let url := stateToUrl toString syncConfig store params in
  let loaded := urlToState ofString [] syncConfig url fresh in
  forall config, In config syncConfig ->
    state loaded (name config) = state store (name config)
    /\ defaults loaded (name config) = defaults store (name config)
    /\ rejected loaded = rejected fresh.
Proof.
  intros Hnames Hparams H url loaded config Hin.
  assert (Q : forall c, In c syncConfig ->
            lookup (param c) url
            = if String.eqb (serializer toString c (state fresh (name c)))
                   (serializer toString c (state store (name c)))
              then None
              else Some (serializer toString c (state store (name c)))).
  { intros c Hc. unfold url. rewrite stateToUrl_entry by assumption.
    destruct (H c Hc) as (-> & _). reflexivity. }
  unfold loaded, urlToState. cbn [fold_left state rejected].
  set (start := mkStore (state fresh) (fun _ => None) (rejected fresh)).
  assert (G : forall l store0,
            NoDup (map (@name Value) l) ->
            incl l syncConfig ->
            forall c, In c l ->
              state store0 (name c) = state fresh (name c) ->
              state (fold_left (urlToStateEntry ofString url) l store0)
                (name c) = state store (name c)
              /\ defaults
                   (fold_left (urlToStateEntry ofString url) l store0)
                   (name c) = Some (state fresh (name c))).
  { induction l as [|c0 l IH]; intros store0 Hnd Hl c Hc Hs; [destruct Hc|].
    inversion Hnd as [|? ? Hc0 Hnd']; subst. simpl fold_left.
    destruct Hc as [->|Hc].
    - destruct (@urlToState_loop_other url (name c) l
                  (urlToStateEntry ofString url store0 c) Hc0)
        as [A B].
      rewrite A, B. clear A B.
      assert (Hcin : In c syncConfig) by (apply Hl; now left).
      destruct (H c Hcin) as (Hd & [Hdef _] & [Hcar Hval]).
      unfold urlToStateEntry. rewrite (Q c Hcin).
      destruct (String.eqb_spec (serializer toString c (state fresh (name c)))
                  (serializer toString c (state store (name c)))) as [E|E].
      + cbn [state defaults]. unfold write. rewrite String.eqb_refl, Hs.
        split; [|reflexivity]. rewrite E in Hdef. congruence.
      + rewrite Hcar.
        assert (V : match valid c with
                    | Some valid => negb (valid (state store (name c)))
                    | None => false
                    end = false).
        { destruct (valid c) as [f|]; [rewrite Hval|]; reflexivity. }
        rewrite V. cbn [state defaults]. unfold write.
        rewrite String.eqb_refl, Hs. split; reflexivity.
    - apply IH; [exact Hnd'|intros x Hx; apply Hl; now right|exact Hc|].
      assert (Hne : name c <> name c0).
      { intros E. apply Hc0. rewrite <- E. apply in_map, Hc. }
      unfold urlToStateEntry.
      assert (W : forall A (v : A) f, write (name c0) v f (name c) = f (name c)).
      { intros A0 v f. unfold write.
        destruct (String.eqb_spec (name c) (name c0)); [congruence|reflexivity]. }
      destruct (lookup (param c0) url) as [text|]; cbn [state];
        [|exact Hs].
      destruct (deserializer ofString c0 text) as [value|];
        cbn [state]; [|exact Hs].
      destruct (match valid c0 with Some v => negb (v value) | None => false end);
        cbn [state]; rewrite ?W; exact Hs. }
  destruct (G syncConfig start Hnames (incl_refl _) config Hin eq_refl) as [A B].
  split; [exact A|]. split.
  - rewrite B. destruct (H config Hin) as (-> & _). reflexivity.
  - rewrite urlToState_loop_rejected; [reflexivity|].
    intros c text Hc Ht. rewrite (Q c Hc) in Ht.
    destruct (String.eqb _ _); [discriminate|]. injection Ht as <-.
    destruct (H c Hc) as (_ & _ & [Hcar Hval]).
    exists (state store (name c)). split; assumption.
Qed.

End UrlSyncFacts.

Lemma reload_restores_state_witness :
  let url :=
    UrlSync.stateToUrl (UrlParam.join ",") satStoreSync satStoreInUse
      [("gs", "48.1,11.6")]%string in
  let loaded :=
    UrlSync.urlToState (fun v => [v]) [] satStoreSync url satStoreInitial in
  url = [("gs", "48.1,11.6"); ("elements", "Point,Sensor-cone");
         ("sats", "ISS~(ZARYA),NOAA~19")]%string
  /\ forall config, In config satStoreSync ->
       UrlSync.state loaded (UrlSync.name config)
       = UrlSync.state satStoreInUse (UrlSync.name config)
       /\ UrlSync.defaults loaded (UrlSync.name config)
          = UrlSync.defaults satStoreInUse (UrlSync.name config)
       /\ UrlSync.rejected loaded = UrlSync.rejected satStoreInitial.
Proof.
  split; [reflexivity|].
  apply (@reload_restores_state (list string) (UrlParam.join ",")
           (fun v => [v]) satStoreSync satStoreInUse satStoreInitial
           [("gs", "48.1,11.6")]%string).
  - repeat constructor; simpl; intuition discriminate.
  - repeat constructor; simpl; intuition discriminate.
  - intros config [<-|[<-|[<-|[]]]]; repeat split; reflexivity.
Defined.

(** ** The passes of a ground station *)

Section PassesFacts.

Import Passes.









End PassesFacts.


(** ** Push notifications *)

Section PushManagerFacts.

Import PushManager.

Lemma diffSeconds_near a b :
  (Z.abs (diffSeconds a b) <? 10)%Z = (Z.abs (a - b) <? 10000)%Z.
Proof.
  unfold diffSeconds.
  pose proof (Z.quot_rem' (a - b) 1000) as E.
  destruct (Z_lt_le_dec (a - b) 0) as [Hneg|Hpos].
  - pose proof (Z.rem_bound_pos (- (a - b)) 1000 ltac:(lia) ltac:(lia)) as R.
    rewrite Z.rem_opp_l' in R.
    destruct (Z.ltb_spec (Z.abs (Z.quot (a - b) 1000)) 10),
             (Z.ltb_spec (Z.abs (a - b)) 10000); try reflexivity; lia.
  - pose proof (Z.rem_bound_pos (a - b) 1000 Hpos ltac:(lia)) as R.
    destruct (Z.ltb_spec (Z.abs (Z.quot (a - b) 1000)) 10),
             (Z.ltb_spec (Z.abs (a - b)) 10000); try reflexivity; lia.
Qed.

Lemma apart_snoc l x :
  ForallOrdPairs apart l -> Forall (fun a => apart a x) l ->
  ForallOrdPairs apart (l ++ [x]).
Proof.
  induction 1 as [|a l Ha Hl IH]; intros Hx; simpl.
  - constructor; constructor.
  - inversion Hx; subst. constructor; [|apply IH; assumption].
    apply Forall_app. split; [exact Ha|]. constructor; [assumption|constructor].
Qed.

Lemma notifyAtDate_apart window timeoutId d m this :
  ForallOrdPairs apart (timers this) ->
  ForallOrdPairs apart (timers (notifyAtDate window timeoutId d m this)).
Proof.
  intros H. unfold notifyAtDate.
  destruct (negb (available window)); [exact H|].
  destruct (d - now window <? 0)%Z; [exact H|].
  destruct (existsb _ (timers this)) eqn:E; [exact H|].
  destruct (webkit window); [exact H|]. simpl.
  apply apart_snoc; [exact H|].
  apply Forall_forall. intros a Ha.
  pose proof (existsb_exists (fun timer =>
    (Z.abs (diffSeconds (date timer) d) <? 10)%Z) (timers this)) as X.
  destruct (Z.ltb_spec (Z.abs (date a - d)) 10000) as [Hlt|Hge].
  - assert (existsb (fun timer =>
      (Z.abs (diffSeconds (date timer) d) <? 10)%Z) (timers this) = true).
    { apply X. exists a. split; [exact Ha|].
      rewrite diffSeconds_near. apply Z.ltb_lt, Hlt. }
    congruence.
  - exact Hge.
Qed.

Lemma call_apart this k :
  ForallOrdPairs apart (timers this) ->
  ForallOrdPairs apart (timers (call this k)).
Proof.
  destruct k as [window timeoutId d m|]; simpl.
  - apply notifyAtDate_apart.
  - intros _. constructor.
Qed.

(** X15: scheduled notifications keep their distance.  Whatever is asked
    of a push manager, in whatever browser, any two timers it holds are
    for dates ten seconds apart or more. *)
Theorem timers_stay_apart calls :
  ForallOrdPairs apart (timers (fold_left call calls constructor)).
Proof.
  assert (G : forall this, ForallOrdPairs apart (timers this) ->
    ForallOrdPairs apart (timers (fold_left call calls this))).
  { induction calls as [|k calls IH]; intros this H; [exact H|].
    simpl. apply IH, call_apart, H. }
  apply G. constructor.
Qed.

Lemma available_webkit window : webkit window = true -> available window = true.
Proof. unfold available. intros ->. reflexivity. Qed.

(** X16: on iOS nothing is remembered.  When every call runs in a window
    with [webkit], the manager holds no timer at any time, so it is never
    [active] and no request is taken for a duplicate: every message asked
    for at a date that is not past is posted, repeats included. *)
Theorem webkit_posts_every_request calls :
  forallb onWebkit calls = true ->
  let this := fold_left call calls constructor in
  timers this = [] /\ active this = false /\ iosNotify this = requested calls.
Proof.
  intros H.
  assert (G : forall this, timers this = [] ->
    timers (fold_left call calls this) = []
    /\ iosNotify (fold_left call calls this) = iosNotify this ++ requested calls).
  { induction calls as [|k calls IH]; intros this Ht.
    - simpl. rewrite app_nil_r. split; [exact Ht|reflexivity].
    - simpl in H. apply andb_prop in H as [Hk Hrest].
      specialize (IH Hrest).
      change (fold_left call (k :: calls) this)
        with (fold_left call calls (call this k)).
      destruct k as [window timeoutId d m|].
      + simpl in Hk. simpl call. unfold notifyAtDate.
        rewrite (available_webkit _ Hk), Ht, Hk. simpl negb. simpl existsb.
        cbv iota. simpl requested.
        destruct (d - now window <? 0)%Z.
        * apply IH, Ht.
        * destruct (IH (mk [] (iosNotify this ++ [(d, m)])) eq_refl) as [A B].
          split; [exact A|]. rewrite B. simpl. rewrite <- app_assoc.
          reflexivity.
      + simpl call. simpl requested. apply (IH (clearTimers this)). reflexivity. }
  destruct (G constructor eq_refl) as [A B]. cbv zeta.
  split; [exact A|]. split; [unfold active; rewrite A; reflexivity|].
  exact B.
Qed.

End PushManagerFacts.

Lemma webkit_posts_every_request_witness :
  PushManager.iosNotify
    (fold_left PushManager.call
       [PushManager.NotifyAtDate
          (PushManager.mkWindow true false PushManager.denied 1000) 0 5000
          "pass"%string;
        PushManager.NotifyAtDate
          (PushManager.mkWindow true false PushManager.denied 2000) 0 5000
          "pass"%string]
       PushManager.constructor)
  = [(5000%Z, "pass"%string); (5000%Z, "pass"%string)].
Proof.
  apply (@webkit_posts_every_request
           [PushManager.NotifyAtDate
              (PushManager.mkWindow true false PushManager.denied 1000) 0 5000
              "pass"%string;
            PushManager.NotifyAtDate
              (PushManager.mkWindow true false PushManager.denied 2000) 0 5000
              "pass"%string]).
  reflexivity.
Defined.

(** ** Highlighted ranges of the timeline *)

Section TimelineFacts.

Import CesiumTimelineHelper.

Variable Range : Type.
Variable fromRange : Range -> JulianDate.t * JulianDate.t.

Lemma addHighlightRanges_fold ranges : forall tl,
  fold_left
    (fun tl range =>
       mkTimeline (_highlightRanges tl ++ [fromRange range]) (redraws tl + 1))
    ranges tl
  = mkTimeline (_highlightRanges tl ++ map fromRange ranges)
      (redraws tl + List.length ranges).
Proof.
  induction ranges as [|r ranges IH]; intros tl; simpl.
  - rewrite app_nil_r, Nat.add_0_r. destruct tl; reflexivity.
  - rewrite IH. simpl. rewrite <- app_assoc. f_equal. lia.
Qed.

(** X17: an update replaces the highlighted ranges.  On a viewer with a
    timeline the ranges after [updateHighlightRanges] are the given ones,
    converted, in their order, whatever was highlighted before; the
    timeline is redrawn once for each range and once more if there was
    something to clear.  A viewer without a timeline stays without. *)
Theorem updateHighlightRanges_replaces timeline ranges :
  updateHighlightRanges fromRange timeline ranges
  = match timeline with
    | None => None
    | Some tl =>
        Some (mkTimeline (map fromRange ranges)
                (redraws tl
                 + (match _highlightRanges tl with [] => 0 | _ :: _ => 1 end)
                 + List.length ranges))
    end.
Proof.
  destruct timeline as [[old n]|]; [|reflexivity].
  unfold updateHighlightRanges, clearHighlightRanges, addHighlightRanges.
  destruct old as [|r old]; cbn [_highlightRanges redraws];
    rewrite addHighlightRanges_fold; cbn [_highlightRanges redraws];
    [rewrite Nat.add_0_r|]; reflexivity.
Qed.

End TimelineFacts.

(** ** Raw samples of a sampled position *)

Section RawValues.

Import SampledPositionProperty.

Variable Values Packed : Type.
Variable unpack : Values -> nat -> Packed.
Variable packedLength : nat.
Variable binarySearch : list JulianDate.t -> JulianDate.t -> Z.

Lemma compare_zero a b : compare a b = 0%Z -> a = b.
Proof.
  destruct a as [d s], b as [d' s']. unfold compare. simpl.
  destruct (Z.eqb_spec (d - d') 0); simpl; intros H.
  - f_equal; lia.
  - lia.
Qed.

Lemma compare_flip a b : (compare a b < 0)%Z -> (0 < compare b a)%Z.
Proof.
  destruct a as [d s], b as [d' s']. unfold compare. simpl.
  destruct (Z.eqb_spec (d - d') 0), (Z.eqb_spec (d' - d) 0); simpl; lia.
Qed.

Lemma ascending_nth times :
  ascending times ->
  forall i j a b, i < j -> nth_error times i = Some a ->
    nth_error times j = Some b -> (compare a b < 0)%Z.
Proof.
  induction 1 as [|t times Hs IH Ht]; intros i j a b Hij Ha Hb.
  - destruct i; discriminate.
  - destruct j as [|j]; [lia|]. simpl in Hb. destruct i as [|i].
    + simpl in Ha. injection Ha as <-.
      rewrite Forall_forall in Ht. apply Ht. eapply nth_error_In, Hb.
    + simpl in Ha. apply (IH i j); [lia|assumption|assumption].
Qed.

Lemma position_spec times x r :
  ascending times -> meetsContract times x r = true ->
  position r <= List.length times
  /\ forall j t, nth_error times j = Some t ->
       ((compare t x <? 0)%Z = (j <? position r)).
Proof.
  intros Hs Hc. unfold meetsContract in Hc. unfold position.
  destruct (Z.leb_spec 0 r) as [Hr|Hr].
  - destruct (Z.ltb_spec r 0) as [|_]; [lia|].
    destruct (nth_error times (Z.to_nat r)) as [t0|] eqn:E; [|discriminate].
    apply Z.eqb_eq, compare_zero in Hc. subst t0.
    split.
    { apply Nat.lt_le_incl, nth_error_Some. congruence. }
    intros j t Hj.
    destruct (Nat.ltb_spec j (Z.to_nat r)) as [Hlt|Hge].
    + apply Z.ltb_lt. eapply ascending_nth; eauto.
    + apply Z.ltb_ge. destruct (Nat.eq_dec j (Z.to_nat r)) as [->|Hne].
      * assert (t = x) by congruence. subst t.
        destruct x as [d s]. unfold compare. simpl.
        rewrite Z.sub_diag. simpl. lia.
      * apply Z.lt_le_incl, compare_flip.
        apply (@ascending_nth times Hs (Z.to_nat r) j); [lia|assumption|assumption].
  - destruct (Z.ltb_spec r 0) as [_|]; [|lia].
    apply andb_prop in Hc as [Hc Hafter]. apply andb_prop in Hc as [Hlen Hbefore].
    apply Nat.leb_le in Hlen. split; [exact Hlen|].
    intros j t Hj. rewrite forallb_forall in Hbefore, Hafter.
    destruct (Nat.ltb_spec j (Z.to_nat (Z.lnot r))) as [Hlt|Hge].
    + apply Hbefore. apply (@nth_error_In _ _ j).
      rewrite nth_error_firstn. apply Nat.ltb_lt in Hlt. rewrite Hlt. exact Hj.
    + apply Z.ltb_ge. apply Z.lt_le_incl, Z.ltb_lt, Hafter.
      apply (@nth_error_In _ _ (j - Z.to_nat (Z.lnot r))).
      rewrite nth_error_skipn.
      replace (Z.to_nat (Z.lnot r) + (j - Z.to_nat (Z.lnot r))) with j by lia.
      exact Hj.
Qed.

Lemma filter_seq_window s e n : forall a,
  filter (fun i => (s <=? i) && (i <? e)) (seq a n)
  = seq (Nat.max a s) (Nat.min (a + n) e - Nat.max a s).
Proof.
  induction n as [|n IH]; intros a.
  - replace (Nat.min (a + 0) e - Nat.max a s) with 0 by lia. reflexivity.
  - cbn [seq filter]. rewrite IH.
    destruct (Nat.leb_spec s a) as [Hsa|Hsa]; cbn [andb].
    + destruct (Nat.ltb_spec a e) as [Hae|Hae].
      * replace (Nat.max (S a) s) with (S a) by lia.
        replace (Nat.max a s) with a by lia.
        replace (Nat.min (a + S n) e - a)
          with (S (Nat.min (S a + n) e - S a)) by lia.
        reflexivity.
      * replace (Nat.min (S a + n) e - Nat.max (S a) s) with 0 by lia.
        replace (Nat.min (a + S n) e - Nat.max a s) with 0 by lia.
        reflexivity.
    + replace (Nat.max (S a) s) with (Nat.max a s) by lia.
      replace (S a + n) with (a + S n) by lia. reflexivity.
Qed.

(** X18: the raw samples of a time frame.  On ascending sample times,
    with a search that answers both ends as Cesium's [binarySearch] is
    documented to, [getRawValues(start, end)] unpacks exactly the samples
    whose time is at or after [start] and before [end], in ascending
    order: a sample at [start] is included, one at [end] is not. *)
Theorem getRawValues_window (this : SampledPositionProperty.t Values)
    (start end_ : JulianDate.t) :
  ascending (_times this) ->
  meetsContract (_times this) start (binarySearch (_times this) start) = true ->
  meetsContract (_times this) end_ (binarySearch (_times this) end_) = true ->
  getRawValues unpack packedLength binarySearch this start end_
  = map (fun i => unpack (_values this) (i * packedLength))
      (within this start end_).
Proof.
  intros Hs Hstart Hend.
  destruct (position_spec _ _ Hs Hstart) as [_ Ps].
  destruct (position_spec _ _ Hs Hend) as [Le Pe].
  unfold getRawValues, within, SampledPositionProperty.length.
  destruct (Nat.eqb_spec (List.length (_times this)) 0) as [E0|_].
  { rewrite E0. reflexivity. }
  cbv zeta.
  change (Z.to_nat (if (binarySearch (_times this) start <? 0)%Z
                    then Z.lnot (binarySearch (_times this) start)
                    else binarySearch (_times this) start))
    with (position (binarySearch (_times this) start)).
  change (Z.to_nat (if (binarySearch (_times this) end_ <? 0)%Z
                    then Z.lnot (binarySearch (_times this) end_)
                    else binarySearch (_times this) end_))
    with (position (binarySearch (_times this) end_)).
  set (ps := position (binarySearch (_times this) start)) in *.
  set (pe := position (binarySearch (_times this) end_)) in *.
  f_equal.
  rewrite (@filter_ext_in _ _ (fun i => (ps <=? i) && (i <? pe))).
  - rewrite filter_seq_window. f_equal; lia.
  - intros i Hi. apply in_seq in Hi.
    destruct (nth_error (_times this) i) as [t|] eqn:Et.
    + rewrite <- (Pe i t Et). f_equal.
      rewrite Nat.leb_antisym, <- (Ps i t Et), Z.leb_antisym. reflexivity.
    + apply nth_error_None in Et. lia.
Qed.

End RawValues.

Lemma getRawValues_window_witness :
  SampledPositionProperty.getRawValues (fun (values : list Z) offset => nth offset values 0%Z) 1
    (fun _ itemToFind =>
       if (JulianDate.secondsOfDay itemToFind =? 10)%Z then 1%Z else (-4)%Z)
    (SampledPositionProperty.mk
       [JulianDate.make 0 0; JulianDate.make 0 10; JulianDate.make 0 20]
       [7; 8; 9]%Z)
    (JulianDate.make 0 10) (JulianDate.make 0 30)
  = [8; 9]%Z.
Proof.
  apply (@getRawValues_window (list Z) Z
           (fun values offset => nth offset values 0%Z) 1
           (fun _ itemToFind =>
              if (JulianDate.secondsOfDay itemToFind =? 10)%Z then 1%Z
              else (-4)%Z)
           (SampledPositionProperty.mk
              [JulianDate.make 0 0; JulianDate.make 0 10; JulianDate.make 0 20]
              [7; 8; 9]%Z)
           (JulianDate.make 0 10) (JulianDate.make 0 30)).
  - repeat constructor.
  - reflexivity.
  - reflexivity.
Defined.
